(** * Image proxy worker: a shallow embedding and its verified properties

    The repository holds the worker twice: split over modules
    ([src/index.ts], [src/validation.ts], [src/image-processing.ts],
    [utils], [types]) and once more as a single file that carries its own
    copy of every function.  The helper functions [validateDomain],
    [calculateDimensions], [determineOutputFormat], [fetchSourceImage],
    [addCorsHeaders], [getImageBuffer] and the [fetch] handler are verbatim
    the same in both; the options parser, [applyTransformations] and
    [processImage] differ.  Shared functions are embedded once, the
    differing ones in [Module Worker] (the modules) and
    [Module SingleFile] (the single file).

    Conventions of the embedding.
    - A JavaScript string is a [string] (a byte string); case folding and
      white space are those of ASCII.
    - A JavaScript number is a [number]: NaN, an infinity, or the
      rational value of a finite binary64 number.  Division,
      multiplication and conversion from text round to the nearest
      binary64 value ([Binary64.round]); the exponent range is not
      bounded (no overflow, no gradual underflow) and the sign of zero is
      not tracked.
    - A thrown value is a [thrown]; a computation that may throw returns a
      [Result].  Codec calls thread the table of live images ([Heap]).
    - What the platform provides (URL parser, outbound fetch, the photon
      codec, zod's error text) is the interface [Platform]. *)

From Stdlib Require Import ZArith QArith Qround Qpower Qcanon Lia Lqa Ascii DecimalString.
From Stdlib Require String.
From stdpp Require Import gmap strings.

Local Open Scope Z_scope.

(** ** JavaScript strings *)

Module JSString.

Definition lower_ascii (c : ascii) : ascii :=
  let n := N_of_ascii c in
  if ((65 <=? n) && (n <=? 90))%N then ascii_of_N (n + 32) else c.

(** [s.toLowerCase()] *)
Fixpoint toLowerCase (s : string) : string :=
  match s with
  | EmptyString => EmptyString
  | String c r => String (lower_ascii c) (toLowerCase r)
  end.

(** White space and line terminators stripped by [trim], [parseInt] and
    [Number]: tab, line feed, vertical tab, form feed, carriage return,
    space. *)
Definition is_space (c : ascii) : bool :=
  let n := N_of_ascii c in
  (((9 <=? n) && (n <=? 13)) || (n =? 32))%N.

Fixpoint trimStart (s : string) : string :=
  match s with
  | EmptyString => EmptyString
  | String c r => if is_space c then trimStart r else s
  end.

Definition is_empty (s : string) : bool :=
  match s with EmptyString => true | _ => false end.

Fixpoint trimEnd (s : string) : string :=
  match s with
  | EmptyString => EmptyString
  | String c r =>
      let r' := trimEnd r in
      if is_space c && is_empty r' then EmptyString else String c r'
  end.

(** [s.trim()] *)
Definition trim (s : string) : string := trimEnd (trimStart s).

(** [s.startsWith(p)] *)
Fixpoint startsWith (s p : string) {struct p} : bool :=
  match p, s with
  | EmptyString, _ => true
  | String _ _, EmptyString => false
  | String b p', String a s' => Ascii.eqb a b && startsWith s' p'
  end.

(** [s.substring(n)] *)
Fixpoint substring (s : string) (n : nat) {struct n} : string :=
  match n, s with
  | O, _ => s
  | S _, EmptyString => EmptyString
  | S n', String _ s' => substring s' n'
  end.

(** [s.endsWith(p)] *)
Definition endsWith (s p : string) : bool :=
  (String.length p <=? String.length s)%nat
  && String.eqb (substring s (String.length s - String.length p)) p.

(** [s.includes(p)] *)
Fixpoint includes (s p : string) : bool :=
  startsWith s p
  || match s with
     | EmptyString => false
     | String _ s' => includes s' p
     end.

(** [s.split(sep)] for a one-character separator. *)
Fixpoint split (s : string) (sep : ascii) : list string :=
  match s with
  | EmptyString => [EmptyString]
  | String c r =>
      if Ascii.eqb c sep then EmptyString :: split r sep
      else match split r sep with
           | x :: xs => String c x :: xs
           | [] => [String c EmptyString]
           end
  end.

Definition is_digit (c : ascii) : bool :=
  let n := N_of_ascii c in ((48 <=? n) && (n <=? 57))%N.

Definition digit_value (c : ascii) : Z := Z.of_N (N_of_ascii c) - 48.

(** The longest prefix of decimal digits, and what follows it. *)
Fixpoint span_digits (s : string) : string * string :=
  match s with
  | EmptyString => (EmptyString, EmptyString)
  | String c r =>
      if is_digit c
      then let '(d, rest) := span_digits r in (String c d, rest)
      else (EmptyString, s)
  end.

(** The value of a string of decimal digits, most significant first. *)
Fixpoint digits_value (acc : Z) (s : string) : Z :=
  match s with
  | EmptyString => acc
  | String c r => digits_value (10 * acc + digit_value c) r
  end.

End JSString.

(** ** Binary64 rounding *)

Module Binary64.

(** The integer nearest to [q], ties to the even one. *)
Definition nearest_even (q : Q) : Z :=
  let f := Qfloor q in
  match Qcompare (q - inject_Z f) (1 # 2) with
  | Lt => f
  | Gt => f + 1
  | Eq => if Z.even f then f else f + 1
  end.

Definition pow2 (e : Z) : Q := Qpower 2 e.

(** For positive [q], the exponent [e] with [2^52 <= q / 2^e < 2^53]. *)
Definition ulp_exponent (q : Q) : Z :=
  let k := Z.log2 (Qnum q) - Z.log2 (Zpos (Qden q)) in
  if Qle_bool (pow2 52) (q / pow2 (k - 52)) then k - 52 else k - 53.

Definition round_positive (q : Q) : Q :=
  let e := ulp_exponent q in
  Qred (inject_Z (nearest_even (q / pow2 e)) * pow2 e).

(** The binary64 value nearest to [q]: 53 significant bits, ties to
    even, no bound on the exponent. *)
Definition round (q : Q) : Q :=
  match Qcompare q 0 with
  | Eq => 0
  | Gt => round_positive q
  | Lt => - round_positive (- q)
  end.

(** The unit roundoff [2^-53]. *)
Definition u : Q := 1 # 9007199254740992.

End Binary64.

(** ** JavaScript numbers *)

Inductive number :=
| NaN
| Infinity (negative : bool)
| Num (q : Q).

Module JSNumber.

(** The number that holds the integer [z]; meant for integers that
    binary64 represents exactly (all up to [2^53] in absolute value). *)
Definition of_Z (z : Z) : number := Num (inject_Z z).

(** The number nearest to a rational. *)
Definition nearest (q : Q) : number := Num (Binary64.round q).

Definition isNaN (n : number) : bool :=
  match n with NaN => true | _ => false end.

(** Truthiness of a number: [0] and [NaN] are falsy. *)
Definition truthy (n : number) : bool :=
  match n with
  | NaN => false
  | Infinity _ => true
  | Num q => negb (Qeq_bool q 0)
  end.

Definition Qltb (a b : Q) : bool := negb (Qle_bool b a).

(** [a < b] *)
Definition lt (a b : number) : bool :=
  match a, b with
  | NaN, _ | _, NaN => false
  | Infinity true, Infinity true => false
  | Infinity true, _ => true
  | _, Infinity true => false
  | Infinity false, _ => false
  | Num _, Infinity false => true
  | Num p, Num q => Qltb p q
  end.

(** [a > b] *)
Definition gt (a b : number) : bool := lt b a.

(** [a === b] *)
Definition eq (a b : number) : bool :=
  match a, b with
  | Infinity s, Infinity t => Bool.eqb s t
  | Num p, Num q => Qeq_bool p q
  | _, _ => false
  end.

(** [a <= b] *)
Definition le (a b : number) : bool := lt a b || eq a b.

(** [a >= b] *)
Definition ge (a b : number) : bool := le b a.

Definition Qnegative (q : Q) : bool := Qltb q 0.

(** [a * b] *)
Definition mul (a b : number) : number :=
  match a, b with
  | NaN, _ | _, NaN => NaN
  | Infinity s, Infinity t => Infinity (xorb s t)
  | Infinity s, Num q | Num q, Infinity s =>
      if Qeq_bool q 0 then NaN else Infinity (xorb s (Qnegative q))
  | Num p, Num q => nearest (p * q)
  end.

(** [a / b] *)
Definition div (a b : number) : number :=
  match a, b with
  | NaN, _ | _, NaN => NaN
  | Infinity _, Infinity _ => NaN
  | Infinity s, Num q => Infinity (xorb s (Qnegative q))
  | Num _, Infinity _ => Num 0
  | Num p, Num q =>
      if Qeq_bool q 0
      then if Qeq_bool p 0 then NaN else Infinity (Qnegative p)
      else nearest (p / q)
  end.

(** [Math.round(a)]: the integer nearest to [a], ties towards
    +Infinity; no rounding is involved. *)
Definition round (a : number) : number :=
  match a with
  | Num q => of_Z (Qfloor (q + (1 # 2)))
  | _ => a
  end.

(** [Number.isInteger(a)] *)
Definition isInteger (a : number) : bool :=
  match a with
  | Num q => Qeq_bool (inject_Z (Qfloor q)) q
  | _ => false
  end.

End JSNumber.

(** ** String to number conversions *)

Module JSConv.
Import JSString JSNumber.

(** An optional leading sign: whether it is a minus, and the rest. *)
Definition strip_sign (s : string) : bool * string :=
  match s with
  | String "-" r => (true, r)
  | String "+" r => (false, r)
  | _ => (false, s)
  end.

Definition signed (negative : bool) (z : Z) : Z :=
  if negative then - z else z.

(** [parseInt(s, 10)]: leading white space is skipped, a sign is read,
    then the longest run of decimal digits; what follows is ignored and
    no digit at all gives NaN. *)
Definition parseInt (s : string) : number :=
  let '(negative, r) := strip_sign (trimStart s) in
  let '(d, _) := span_digits r in
  if is_empty d then NaN
  else nearest (inject_Z (signed negative (digits_value 0 d))).

Definition radix_digit (c : ascii) : option Z :=
  let n := Z.of_N (N_of_ascii c) in
  if (48 <=? n) && (n <=? 57) then Some (n - 48)
  else if (97 <=? n) && (n <=? 102) then Some (n - 87)
  else if (65 <=? n) && (n <=? 70) then Some (n - 55)
  else None.

Fixpoint radix_value (radix acc : Z) (s : string) : option Z :=
  match s with
  | EmptyString => Some acc
  | String c r =>
      match radix_digit c with
      | Some d =>
          if d <? radix then radix_value radix (radix * acc + d) r
          else None
      | None => None
      end
  end.

(** [0x..], [0o..], [0b..] literals (no sign allowed). *)
Definition parse_non_decimal (s : string) : option Z :=
  match s with
  | String "0" (String c r) =>
      let radix :=
        match c with
        | "x" | "X" => Some 16
        | "o" | "O" => Some 8
        | "b" | "B" => Some 2
        | _ => None
        end%char in
      match radix with
      | Some k => if is_empty r then None else radix_value k 0 r
      | None => None
      end
  | _ => None
  end.

(** The exponent part that may follow a decimal mantissa; it must reach
    the end of the string. *)
Definition parse_exponent (s : string) : option Z :=
  match s with
  | EmptyString => Some 0
  | String c r =>
      if Ascii.eqb c "e" || Ascii.eqb c "E" then
        let '(negative, r') := strip_sign r in
        let '(d, rest) := span_digits r' in
        if is_empty d || negb (is_empty rest) then None
        else Some (signed negative (digits_value 0 d))
      else None
  end.

(** An unsigned decimal literal: digits, optional fraction, optional
    exponent, with at least one digit in the mantissa. *)
Definition parse_decimal (s : string) : option Q :=
  let '(i, r1) := span_digits s in
  let '(f, r2) :=
    match r1 with
    | String "." r => span_digits r
    | _ => (EmptyString, r1)
    end in
  if is_empty i && is_empty f then None
  else match parse_exponent r2 with
       | Some e =>
           Some (inject_Z (digits_value 0 (i +:+ f))
                 * Qpower 10 (e - Z.of_nat (String.length f)))%Q
       | None => None
       end.

(** [Number(s)] on a string: white space is trimmed on both sides, the
    empty string is 0, and the whole remainder must be a numeric
    literal. *)
Definition StringToNumber (s : string) : number :=
  let t := trim s in
  if is_empty t then of_Z 0
  else match parse_non_decimal t with
       | Some z => nearest (inject_Z z)
       | None =>
           let '(negative, r) := strip_sign t in
           if String.eqb r "Infinity" then Infinity negative
           else match parse_decimal r with
                | Some q => nearest (if negative then - q else q)
                | None => NaN
                end
       end.

End JSConv.

(** ** Dynamically typed values held by the candidate object *)

Inductive value :=
| undefined
| str (s : string)
| num (n : number)
| boolean (b : bool).

(** [Number(v)] *)
Definition ToNumber (v : value) : number :=
  match v with
  | undefined => NaN
  | str s => JSConv.StringToNumber s
  | num n => n
  | boolean b => JSNumber.of_Z (if b then 1 else 0)
  end.

(** An optional number parameter used in arithmetic or in a condition:
    [undefined] is falsy and converts to NaN. *)
Definition truthy_opt (o : option number) : bool :=
  match o with Some n => JSNumber.truthy n | None => false end.

Definition number_of_opt (o : option number) : number :=
  match o with Some n => n | None => NaN end.

(** ** utils: dimension calculator and format negotiator *)

Record Dimensions := { newWidth : number; newHeight : number }.

Definition calculateDimensions (originalWidth originalHeight : number)
    (targetWidth targetHeight : option number) : Dimensions :=
  if negb (truthy_opt targetWidth) && negb (truthy_opt targetHeight) then
    {| newWidth := originalWidth; newHeight := originalHeight |}
  else
    let aspectRatio := JSNumber.div originalWidth originalHeight in
    if truthy_opt targetWidth && truthy_opt targetHeight then
      let targetAspectRatio :=
        JSNumber.div (number_of_opt targetWidth) (number_of_opt targetHeight) in
      if JSNumber.gt aspectRatio targetAspectRatio then
        {| newWidth := number_of_opt targetWidth;
           newHeight :=
             JSNumber.round (JSNumber.div (number_of_opt targetWidth) aspectRatio) |}
      else
        {| newWidth :=
             JSNumber.round (JSNumber.mul (number_of_opt targetHeight) aspectRatio);
           newHeight := number_of_opt targetHeight |}
    else if truthy_opt targetWidth then
      {| newWidth := number_of_opt targetWidth;
         newHeight :=
           JSNumber.round (JSNumber.div (number_of_opt targetWidth) aspectRatio) |}
    else if truthy_opt targetHeight then
      {| newWidth :=
           JSNumber.round (JSNumber.mul (number_of_opt targetHeight) aspectRatio);
         newHeight := number_of_opt targetHeight |}
    else {| newWidth := originalWidth; newHeight := originalHeight |}.

Inductive Format := webp | jpeg | png | auto.

Inductive OutputFormat := out_webp | out_jpeg | out_png.

Definition format_name (f : OutputFormat) : string :=
  match f with out_webp => "webp" | out_jpeg => "jpeg" | out_png => "png" end.

(** [options.format] is never the empty string, so [requestedFormat &&
    requestedFormat !== "auto"] is the test against [auto]. *)
Definition determineOutputFormat (requestedFormat : Format)
    (acceptHeader : option string) : OutputFormat :=
  match requestedFormat with
  | webp => out_webp
  | jpeg => out_jpeg
  | png => out_png
  | auto =>
      match acceptHeader with
      | Some a =>
          if negb (JSString.is_empty a) && JSString.includes a "image/webp"
          then out_webp else out_jpeg
      | None => out_jpeg
      end
  end.

(** ** HTTP messages *)

Abbreviation Headers := (gmap string string).

(** A [Headers] object: names are case-insensitive and kept in lower
    case. *)
Module Hdr.

Definition get (h : Headers) (name : string) : option string :=
  h !! JSString.toLowerCase name.

Definition set (h : Headers) (name val : string) : Headers :=
  <[JSString.toLowerCase name := val]> h.

(** [new Headers(init)] from the entries of an object literal. *)
Definition of_list (init : list (string * string)) : Headers :=
  foldl (fun h kv => set h kv.1 kv.2) ∅ init.

(** [headers.get(name) || ""] *)
Definition get_or_empty (h : Headers) (name : string) : string :=
  match get h name with Some v => v | None => "" end.

End Hdr.

Record Response := {
  status : Z;
  statusText : string;
  headers : Headers;
  body : option string
}.

Record Request := {
  method : string;
  url : string;
  req_headers : Headers
}.

(** [response.ok] *)
Definition ok (r : Response) : bool := (200 <=? status r) && (status r <=? 299).

(** [new Response(body, { status, statusText, headers })] for a body that
    is null, a stream or a byte array. *)
Definition new_Response (b : option string) (st : Z) (stText : string)
    (h : Headers) : Response :=
  {| status := st; statusText := stText; headers := h; body := b |}.

(** [new Response(text, { status, headers })] for a string body: the
    constructor supplies a text content type when the headers have
    none. *)
Definition new_Response_text (text : string) (st : Z) (h : Headers) : Response :=
  {| status := st; statusText := "";
     headers :=
       match Hdr.get h "content-type" with
       | Some _ => h
       | None => Hdr.set h "content-type" "text/plain;charset=UTF-8"
       end;
     body := Some text |}.

(** ** Thrown values and results *)

Inductive thrown :=
| HttpError (message : string) (status : Z)
| OtherError (message : string)
| NotAnError.

Inductive Result (A : Type) :=
| Ok (a : A)
| Throw (e : thrown).
Arguments Ok {A} a.
Arguments Throw {A} e.

(** ** The platform *)

Record URL := { hostname : string; pathname : string }.

(** A decoded image as the codec holds it. *)
Record Bitmap := { bm_width : Z; bm_height : Z; bm_pixels : string }.

Inductive SamplingFilter := Nearest | Lanczos3.

Record ZodIssue := { issue_path : string; issue_code : string }.

Class Platform := {
  (** [new URL(s)] *)
  new_URL : string -> Result URL;
  (** the outbound [fetch(url, { headers })] *)
  global_fetch : string -> Headers -> Result Response;
  (** [PhotonImage.new_from_byteslice] *)
  photon_decode : string -> Result Bitmap;
  (** [resize] *)
  photon_resize : Bitmap -> number -> number -> SamplingFilter -> Result Bitmap;
  (** [get_bytes_webp], [get_bytes], [get_bytes_jpeg] *)
  photon_webp : Bitmap -> Result string;
  photon_png : Bitmap -> Result string;
  photon_jpeg : Bitmap -> number -> Result string;
  (** the [message] of a [ZodError] *)
  ZodError_message : list ZodIssue -> string
}.

(** ** Computations with state that may throw *)

Definition M (S A : Type) : Type := S -> Result A * S.

Definition ret {S A} (a : A) : M S A := fun s => (Ok a, s).

Definition throw {S A} (e : thrown) : M S A := fun s => (Throw e, s).

Definition bind {S A B} (m : M S A) (k : A -> M S B) : M S B :=
  fun s =>
    match m s with
    | (Ok a, s') => k a s'
    | (Throw e, s') => (Throw e, s')
    end.

(** [try { m } catch (error) { handler error }] *)
Definition try_catch {S A} (m : M S A) (handler : thrown -> M S A) : M S A :=
  fun s =>
    match m s with
    | (Ok a, s') => (Ok a, s')
    | (Throw e, s') => handler e s'
    end.

Definition lift_result {S A} (r : Result A) : M S A := fun s => (r, s).

Notation "'let*' x ':=' m 'in' k" := (bind m (fun x => k))
  (at level 10, x name, m at level 100, k at level 200).

(** ** The codec's table of live images *)

Inductive CodecCall :=
| call_decode
| call_get_width (p : nat)
| call_get_height (p : nat)
| call_resize (p : nat)
| call_encode (p : nat)
| call_free (p : nat).

(** A [PhotonImage] object is a pointer [p] into [live]; [calls] records
    every call made to the codec, oldest first. *)
Record Heap := {
  next_ptr : nat;
  live : gmap nat Bitmap;
  calls : list CodecCall
}.

Definition empty_heap : Heap := {| next_ptr := 0; live := ∅; calls := [] |}.

Definition null_pointer : thrown := OtherError "null pointer passed to rust".

Module Photon.
Section WithPlatform.
Context {platform : Platform}.

Definition record (c : CodecCall) (h : Heap) : Heap :=
  {| next_ptr := next_ptr h; live := live h; calls := calls h ++ [c] |}.

Definition alloc (bm : Bitmap) (h : Heap) : nat * Heap :=
  (next_ptr h,
   {| next_ptr := S (next_ptr h);
      live := <[next_ptr h := bm]> (live h);
      calls := calls h |}).

Definition new_from_byteslice (bytes : string) : M Heap nat :=
  fun h =>
    let h := record call_decode h in
    match photon_decode bytes with
    | Ok bm => let '(p, h') := alloc bm h in (Ok p, h')
    | Throw e => (Throw e, h)
    end.

Definition get_width (p : nat) : M Heap number :=
  fun h =>
    let h := record (call_get_width p) h in
    match live h !! p with
    | Some bm => (Ok (JSNumber.of_Z (bm_width bm)), h)
    | None => (Throw null_pointer, h)
    end.

Definition get_height (p : nat) : M Heap number :=
  fun h =>
    let h := record (call_get_height p) h in
    match live h !! p with
    | Some bm => (Ok (JSNumber.of_Z (bm_height bm)), h)
    | None => (Throw null_pointer, h)
    end.

(** [resize(image, width, height, filter)] borrows [image] and returns a
    new image; the argument stays live. *)
Definition resize (p : nat) (w h' : number) (f : SamplingFilter) : M Heap nat :=
  fun h =>
    let h := record (call_resize p) h in
    match live h !! p with
    | Some bm =>
        match photon_resize bm w h' f with
        | Ok bm' => let '(q, h2) := alloc bm' h in (Ok q, h2)
        | Throw e => (Throw e, h)
        end
    | None => (Throw null_pointer, h)
    end.

Definition encode_with (enc : Bitmap -> Result string) (p : nat) : M Heap string :=
  fun h =>
    let h := record (call_encode p) h in
    match live h !! p with
    | Some bm => (enc bm, h)
    | None => (Throw null_pointer, h)
    end.

Definition get_bytes_webp : nat -> M Heap string := encode_with photon_webp.
Definition get_bytes : nat -> M Heap string := encode_with photon_png.
Definition get_bytes_jpeg (p : nat) (q : number) : M Heap string :=
  encode_with (fun bm => photon_jpeg bm q) p.

(** [image.free()]; freeing an image that is no longer live changes
    nothing. *)
Definition free (p : nat) : M Heap unit :=
  fun h =>
    (Ok tt,
     {| next_ptr := next_ptr h;
        live := delete p (live h);
        calls := calls h ++ [call_free p] |}).

End WithPlatform.
End Photon.

(** ** types *)

Record ImageProxyOptions := {
  width : option number;
  height : option number;
  format : Format;
  quality : number;
  original : bool
}.

Record Env := {
  ALLOWED_DOMAINS : list string;
  MAX_WIDTH : string;
  MAX_HEIGHT : string
}.

(** ** validation: the domain validator *)

(** The callback given to [domains.some]. *)
Definition domain_matches (hostname domain : string) : bool :=
  if JSString.startsWith domain "*." then
    let baseDomain := JSString.substring domain 2 in
    String.eqb hostname baseDomain
    || JSString.endsWith hostname ("." +:+ baseDomain)
  else String.eqb hostname domain.

Definition normalize_domains (allowedDomains : list string) : list string :=
  List.filter (fun domain => (0 <? String.length domain)%nat)
    (List.map (fun domain => JSString.toLowerCase (JSString.trim domain))
       allowedDomains).

Definition validateDomain {platform : Platform} (url : string)
    (allowedDomains : list string) : bool :=
  match new_URL url with
  | Ok parsedUrl =>
      let hostname := JSString.toLowerCase (hostname parsedUrl) in
      let domains := normalize_domains allowedDomains in
      if (length domains =? 0)%nat then true
      else List.existsb (domain_matches hostname) domains
  | Throw _ => false
  end.

(** ** validation: the options schema (zod) *)

Inductive Parsed (A : Type) :=
| Valid (a : A)
| Invalid (issues : list ZodIssue).
Arguments Valid {A} a.
Arguments Invalid {A} issues.

Definition issues_of {A} (p : Parsed A) : list ZodIssue :=
  match p with Valid _ => [] | Invalid l => l end.

Definition issue (path code : string) : ZodIssue :=
  {| issue_path := path; issue_code := code |}.

Module Zod.

(** A refinement of a number schema: the code of the issue it raises and
    the test that raises it. *)
Definition Check : Type := string * (number -> bool).

Definition int : Check := ("invalid_type", fun n => negb (JSNumber.isInteger n)).
Definition positive : Check := ("too_small", fun n => JSNumber.le n (JSNumber.of_Z 0)).
Definition min (m : number) : Check := ("too_small", fun n => JSNumber.lt n m).
Definition max (m : number) : Check := ("too_big", fun n => JSNumber.gt n m).

(** [z.coerce.number()] followed by refinements: the input goes through
    [Number(..)], NaN is rejected, and every failing refinement adds an
    issue. *)
Definition coerce_number (path : string) (checks : list Check) (v : value)
    : Parsed number :=
  let n := ToNumber v in
  if JSNumber.isNaN n then Invalid [issue path "invalid_type"]
  else match List.flat_map
               (fun c : Check => if c.2 n then [issue path c.1] else []) checks with
       | [] => Valid n
       | issues => Invalid issues
       end.

(** [.optional()] *)
Definition optional {A} (schema : value -> Parsed A) (v : value)
    : Parsed (option A) :=
  match v with
  | undefined => Valid None
  | _ => match schema v with
         | Valid a => Valid (Some a)
         | Invalid l => Invalid l
         end
  end.

(** [.default(d)] *)
Definition default {A} (d : A) (schema : value -> Parsed A) (v : value)
    : Parsed A :=
  match v with
  | undefined => Valid d
  | _ => schema v
  end.

(** [z.enum(["webp", "jpeg", "png", "auto"])] *)
Definition enum_format (path : string) (v : value) : Parsed Format :=
  match v with
  | str s =>
      if String.eqb s "webp" then Valid webp
      else if String.eqb s "jpeg" then Valid jpeg
      else if String.eqb s "png" then Valid png
      else if String.eqb s "auto" then Valid auto
      else Invalid [issue path "invalid_enum_value"]
  | _ => Invalid [issue path "invalid_type"]
  end.

(** [z.boolean()] *)
Definition boolean_ (path : string) (v : value) : Parsed bool :=
  match v with
  | boolean b => Valid b
  | _ => Invalid [issue path "invalid_type"]
  end.

End Zod.

(** The object under construction by the tokenizer ([candidate: any]);
    only the keys the schema reads are kept, zod strips every other. *)
Record Candidate := {
  c_width : value;
  c_height : value;
  c_format : value;
  c_quality : value;
  c_original : value
}.

Definition empty_candidate : Candidate :=
  {| c_width := undefined; c_height := undefined; c_format := undefined;
     c_quality := undefined; c_original := undefined |}.

Definition createImageProxyOptionsSchema (env : Env) (c : Candidate)
    : Parsed ImageProxyOptions :=
  let maxWidth := JSConv.parseInt (MAX_WIDTH env) in
  let maxHeight := JSConv.parseInt (MAX_HEIGHT env) in
  let w := Zod.optional
             (Zod.coerce_number "width" [Zod.int; Zod.positive; Zod.max maxWidth])
             (c_width c) in
  let h := Zod.optional
             (Zod.coerce_number "height" [Zod.int; Zod.positive; Zod.max maxHeight])
             (c_height c) in
  let f := Zod.default auto (Zod.enum_format "format") (c_format c) in
  let q := Zod.default (JSNumber.of_Z 85)
             (Zod.coerce_number "quality"
                [Zod.int; Zod.min (JSNumber.of_Z 1); Zod.max (JSNumber.of_Z 100)])
             (c_quality c) in
  let o := Zod.default false (Zod.boolean_ "original") (c_original c) in
  match w, h, f, q, o with
  | Valid w', Valid h', Valid f', Valid q', Valid o' =>
      Valid {| width := w'; height := h'; format := f'; quality := q';
               original := o' |}
  | _, _, _, _, _ =>
      Invalid (issues_of w ++ issues_of h ++ issues_of f ++ issues_of q
               ++ issues_of o)
  end.

(** [error?.message || "Unknown error"] *)
Definition message_or_unknown (m : string) : string :=
  if JSString.is_empty m then "Unknown error" else m.

(** The [try]/[catch] of [parseImageProxyOptions], the same in both
    copies. *)
Definition parse_or_throw {platform : Platform} (p : Parsed ImageProxyOptions)
    : Result ImageProxyOptions :=
  match p with
  | Valid o => Ok o
  | Invalid issues =>
      Throw (HttpError
               ("Invalid options: " +:+ message_or_unknown (ZodError_message issues))
               400)
  end.

(** ** utils: source fetch and CORS headers *)

Definition string_of_Z (z : Z) : string := NilZero.string_of_int (Z.to_int z).

Definition fetchSourceImage {platform : Platform} (sourceUrl : string) (request : Request)
    : Result Response :=
  match global_fetch sourceUrl (req_headers request) with
  | Throw e => Throw e
  | Ok sourceResponse =>
      if negb (ok sourceResponse) then
        Throw (HttpError
                 ("Failed to fetch source image: "
                  +:+ string_of_Z (status sourceResponse))
                 (status sourceResponse))
      else
        let contentType := Hdr.get_or_empty (headers sourceResponse) "content-type" in
        if negb (JSString.startsWith contentType "image/") then
          Throw (HttpError "Source is not an image" 400)
        else Ok sourceResponse
  end.

Definition addCorsHeaders (response : Response) : Response :=
  let headers0 := headers response in
  let headers1 := Hdr.set headers0 "Access-Control-Allow-Origin" "*" in
  let headers2 := Hdr.set headers1 "Access-Control-Allow-Methods" "GET, OPTIONS" in
  let headers3 := Hdr.set headers2 "Access-Control-Allow-Headers" "Content-Type" in
  let headers4 := Hdr.set headers3 "X-Content-Type-Options" "nosniff" in
  new_Response (body response) (status response) (statusText response) headers4.

(** ** image-processing: what both copies share *)

(** [await sourceResponse.arrayBuffer()] *)
Definition arrayBuffer (r : Response) : string :=
  match body r with Some b => b | None => "" end.

Definition getImageBuffer {platform : Platform} (image : nat) (fmt : OutputFormat)
    (quality : option number) : M Heap string :=
  match fmt with
  | out_webp => Photon.get_bytes_webp image
  | out_png => Photon.get_bytes image
  | out_jpeg =>
      match quality with
      | Some q => Photon.get_bytes_jpeg image q
      | None => Photon.get_bytes_jpeg image (JSNumber.of_Z 85)
      end
  end.

(** ** index: the request handler, the same text in both copies *)

Record World := {
  heap : Heap;
  cache : gmap string Response
}.

Definition lift_heap {A} (m : M Heap A) : M World A :=
  fun w =>
    let '(r, h) := m (heap w) in (r, {| heap := h; cache := cache w |}).

(** [cache.match(request)]: the cache is keyed by the request URL. *)
Definition cache_match (request : Request) : M World (option Response) :=
  fun w => (Ok (cache w !! url request), w).

(** [ctx.waitUntil(cache.put(request, response.clone()))], for a response
    the cache accepts; the store is complete before the next request. *)
Definition cache_put (request : Request) (response : Response) : M World unit :=
  fun w =>
    (Ok tt, {| heap := heap w; cache := <[url request := response]> (cache w) |}).

(** The group [([^\/]+)] followed by the slash: the text before the first
    slash, and what follows that slash if there is one. *)
Fixpoint span_segment (s : string) : string * option string :=
  match s with
  | EmptyString => (EmptyString, None)
  | String c r =>
      if Ascii.eqb c "/" then (EmptyString, Some r)
      else let '(a, b) := span_segment r in (String c a, b)
  end.

(** [.] of a regular expression matches any character but a line
    terminator. *)
Fixpoint no_line_terminator (s : string) : bool :=
  match s with
  | EmptyString => true
  | String c r =>
      negb (Ascii.eqb c "010" || Ascii.eqb c "013") && no_line_terminator r
  end.

(** [path.match(/^\/([^\/]+)\/(.+)$/)]: the two groups. *)
Definition match_path (path : string) : option (string * string) :=
  match path with
  | String "/" r =>
      match span_segment r with
      | (operationsStr, Some sourceUrl) =>
          if JSString.is_empty operationsStr || JSString.is_empty sourceUrl
             || negb (no_line_terminator sourceUrl)
          then None
          else Some (operationsStr, sourceUrl)
      | (_, None) => None
      end
  | _ => None
  end.

Definition preflight_response : Response :=
  new_Response None 204 ""
    (Hdr.of_list
       [("Access-Control-Allow-Origin", "*");
        ("Access-Control-Allow-Methods", "GET, OPTIONS");
        ("Access-Control-Allow-Headers", "Content-Type");
        ("Access-Control-Max-Age", "86400")]).

(** The [catch] block of the handler. *)
Definition error_response (error : thrown) : Response :=
  let st := match error with HttpError _ s => s | _ => 500 end in
  let message :=
    match error with
    | HttpError m _ | OtherError m => m
    | NotAnError => "Internal Server Error"
    end in
  new_Response_text message st (Hdr.of_list [("Content-Type", "text/plain")]).

Section Handler.
Context {platform : Platform}.
Variable parseImageProxyOptions : string -> Env -> Result ImageProxyOptions.
Variable processImage : Response -> ImageProxyOptions -> M Heap Response.

(** The body of the [try] block. *)
Definition handle_get (request : Request) (env : Env) : M World Response :=
  let* parsed := lift_result (new_URL (url request)) in
  let path := pathname parsed in
  if String.eqb path "/" || String.eqb path "/health" then
    ret (new_Response_text "Image Proxy Worker" 200 ∅)
  else
    match match_path path with
    | None =>
        throw (HttpError
                 "Invalid URL format. Expected: /{operations}/{source_url}" 400)
    | Some (operationsStr, sourceUrl) =>
        if negb (validateDomain sourceUrl (ALLOWED_DOMAINS env)) then
          throw (HttpError "Domain not allowed" 403)
        else
          let* options := lift_result (parseImageProxyOptions operationsStr env) in
          let* cached := cache_match request in
          match cached with
          | Some response => ret response
          | None =>
              let* sourceResponse :=
                lift_result (fetchSourceImage sourceUrl request) in
              let* response := lift_heap (processImage sourceResponse options) in
              let* _ :=
                (if ok response then cache_put request response else ret tt) in
              ret (addCorsHeaders response)
          end
    end.

Definition fetch_handler (request : Request) (env : Env) (w : World)
    : Response * World :=
  if String.eqb (method request) "OPTIONS" then (preflight_response, w)
  else if negb (String.eqb (method request) "GET") then
    (new_Response_text "Method Not Allowed" 405 ∅, w)
  else
    match handle_get request env w with
    | (Ok response, w') => (response, w')
    | (Throw error, w') => (error_response error, w')
    end.

End Handler.

(** ** The worker as split over modules *)

Module Worker.
Section WithPlatform.
Context {platform : Platform}.

Inductive OptionKey := opt_width | opt_height | opt_format | opt_quality.

(** The table [keyToOption]; a key outside it leaves the keys the schema
    reads untouched. *)
Definition keyToOption (key : string) : option OptionKey :=
  if String.eqb key "w" then Some opt_width
  else if String.eqb key "h" then Some opt_height
  else if String.eqb key "f" then Some opt_format
  else if String.eqb key "q" then Some opt_quality
  else None.

(** [candidate[option] = value] *)
Definition assign (o : OptionKey) (v : value) (c : Candidate) : Candidate :=
  match o with
  | opt_width =>
      {| c_width := v; c_height := c_height c; c_format := c_format c;
         c_quality := c_quality c; c_original := c_original c |}
  | opt_height =>
      {| c_width := c_width c; c_height := v; c_format := c_format c;
         c_quality := c_quality c; c_original := c_original c |}
  | opt_format =>
      {| c_width := c_width c; c_height := c_height c; c_format := v;
         c_quality := c_quality c; c_original := c_original c |}
  | opt_quality =>
      {| c_width := c_width c; c_height := c_height c; c_format := c_format c;
         c_quality := v; c_original := c_original c |}
  end.

(** One turn of the loop over [parts]. *)
Definition apply_part (candidate : Candidate) (part : string) : Candidate :=
  let trimmed := JSString.trim part in
  match JSString.split trimmed "_" with
  | key :: rest =>
      let val := match rest with v :: _ => str v | [] => undefined end in
      match keyToOption key with
      | Some option => assign option val candidate
      | None => candidate
      end
  | [] => candidate
  end.

(** The [transform] step of [createOptionsStringSchema]. *)
Definition transform (optionsStr : string) : Candidate :=
  if String.eqb optionsStr "_" then
    {| c_width := undefined; c_height := undefined; c_format := undefined;
       c_quality := undefined; c_original := boolean true |}
  else foldl apply_part empty_candidate (JSString.split optionsStr ",").

Definition createOptionsStringSchema (env : Env) (optionsStr : string)
    : Parsed ImageProxyOptions :=
  createImageProxyOptionsSchema env (transform optionsStr).

Definition parseImageProxyOptions (optionsStr : string) (env : Env)
    : Result ImageProxyOptions :=
  parse_or_throw (createOptionsStringSchema env optionsStr).

Definition applyTransformations (image : nat) (options : ImageProxyOptions)
    : M Heap nat :=
  if negb (truthy_opt (width options)) && negb (truthy_opt (height options)) then
    ret image
  else
    let* originalWidth := Photon.get_width image in
    let* originalHeight := Photon.get_height image in
    let d := calculateDimensions originalWidth originalHeight
               (width options) (height options) in
    if JSNumber.eq (newWidth d) originalWidth
       && JSNumber.eq (newHeight d) originalHeight then
      ret image
    else
      let* resizedImage :=
        Photon.resize image (newWidth d) (newHeight d) Nearest in
      ret resizedImage.

Definition processImage (sourceResponse : Response) (options : ImageProxyOptions)
    : M Heap Response :=
  let passThroughHeaders :=
    [("Cache-Control", Hdr.get_or_empty (headers sourceResponse) "cache-control");
     ("ETag", Hdr.get_or_empty (headers sourceResponse) "etag");
     ("Last-Modified", Hdr.get_or_empty (headers sourceResponse) "last-modified")] in
  if original options then
    ret (new_Response (body sourceResponse) 200 ""
           (Hdr.of_list
              (("Content-Type",
                Hdr.get_or_empty (headers sourceResponse) "content-type")
               :: passThroughHeaders)))
  else
    try_catch
      (let outputFormat :=
         determineOutputFormat (format options)
           (Hdr.get (headers sourceResponse) "accept") in
       let uint8Array := arrayBuffer sourceResponse in
       let* photonImage := Photon.new_from_byteslice uint8Array in
       let* processedImage := applyTransformations photonImage options in
       let* outputBuffer :=
         getImageBuffer processedImage outputFormat (Some (quality options)) in
       let* _ := Photon.free processedImage in
       ret (new_Response (Some outputBuffer) 200 ""
              (Hdr.of_list
                 (("Content-Type", "image/" +:+ format_name outputFormat)
                  :: passThroughHeaders))))
      (fun error => throw (HttpError "Failed to process image" 500)).

Definition fetch : Request -> Env -> World -> Response * World :=
  fetch_handler parseImageProxyOptions processImage.

End WithPlatform.
End Worker.

(** ** The worker as a single file *)

Module SingleFile.
Section WithPlatform.
Context {platform : Platform}.

(** [trimmed.substring(2).match(/^(\d+)x(\d+)$/)]: the two groups. *)
Definition match_size (s : string) : option (string * string) :=
  let '(w, r) := JSString.span_digits s in
  match r with
  | String "x" r' =>
      let '(h, rest) := JSString.span_digits r' in
      if JSString.is_empty w || JSString.is_empty h
         || negb (JSString.is_empty rest)
      then None
      else Some (w, h)
  | _ => None
  end.

Definition set_width (v : value) (c : Candidate) : Candidate :=
  {| c_width := v; c_height := c_height c; c_format := c_format c;
     c_quality := c_quality c; c_original := c_original c |}.

Definition set_height (v : value) (c : Candidate) : Candidate :=
  {| c_width := c_width c; c_height := v; c_format := c_format c;
     c_quality := c_quality c; c_original := c_original c |}.

Definition set_format (v : value) (c : Candidate) : Candidate :=
  {| c_width := c_width c; c_height := c_height c; c_format := v;
     c_quality := c_quality c; c_original := c_original c |}.

Definition set_quality (v : value) (c : Candidate) : Candidate :=
  {| c_width := c_width c; c_height := c_height c; c_format := c_format c;
     c_quality := v; c_original := c_original c |}.

(** [["webp", "jpeg", "png", "auto"].includes(format)] *)
Definition known_format (fmt : string) : bool :=
  String.eqb fmt "webp" || String.eqb fmt "jpeg" || String.eqb fmt "png"
  || String.eqb fmt "auto".

(** One turn of the loop over [parts]. *)
Definition apply_part (maxWidth maxHeight : number) (candidate : Candidate)
    (part : string) : Candidate :=
  let trimmed := JSString.trim part in
  if JSString.startsWith trimmed "w_" then
    let width := JSConv.parseInt (JSString.substring trimmed 2) in
    if negb (JSNumber.isNaN width) && JSNumber.gt width (JSNumber.of_Z 0)
       && JSNumber.le width maxWidth
    then set_width (num width) candidate
    else candidate
  else if JSString.startsWith trimmed "h_" then
    let height := JSConv.parseInt (JSString.substring trimmed 2) in
    if negb (JSNumber.isNaN height) && JSNumber.gt height (JSNumber.of_Z 0)
       && JSNumber.le height maxHeight
    then set_height (num height) candidate
    else candidate
  else if JSString.startsWith trimmed "s_" then
    match match_size (JSString.substring trimmed 2) with
    | Some (g1, g2) =>
        let width := JSConv.parseInt g1 in
        let height := JSConv.parseInt g2 in
        if negb (JSNumber.isNaN width) && negb (JSNumber.isNaN height)
           && JSNumber.gt width (JSNumber.of_Z 0)
           && JSNumber.gt height (JSNumber.of_Z 0)
           && JSNumber.le width maxWidth
           && JSNumber.le height maxHeight
        then set_height (num height) (set_width (num width) candidate)
        else candidate
    | None => candidate
    end
  else if JSString.startsWith trimmed "f_" then
    let fmt := JSString.substring trimmed 2 in
    if known_format fmt then set_format (str fmt) candidate else candidate
  else if JSString.startsWith trimmed "q_" then
    let quality := JSConv.parseInt (JSString.substring trimmed 2) in
    if negb (JSNumber.isNaN quality) && JSNumber.ge quality (JSNumber.of_Z 1)
       && JSNumber.le quality (JSNumber.of_Z 100)
    then set_quality (num quality) candidate
    else candidate
  else candidate.

(** The [transform] step of [createOptionsStringSchema]. *)
Definition transform (env : Env) (optionsStr : string) : Candidate :=
  let maxWidth := JSConv.parseInt (MAX_WIDTH env) in
  let maxHeight := JSConv.parseInt (MAX_HEIGHT env) in
  if String.eqb optionsStr "_" then
    {| c_width := undefined; c_height := undefined; c_format := undefined;
       c_quality := undefined; c_original := boolean true |}
  else
    foldl (apply_part maxWidth maxHeight) empty_candidate
      (JSString.split optionsStr ",").

Definition createOptionsStringSchema (env : Env) (optionsStr : string)
    : Parsed ImageProxyOptions :=
  createImageProxyOptionsSchema env (transform env optionsStr).

Definition parseImageProxyOptions (optionsStr : string) (env : Env)
    : Result ImageProxyOptions :=
  parse_or_throw (createOptionsStringSchema env optionsStr).

Definition applyTransformations (image : nat) (options : ImageProxyOptions)
    : M Heap nat :=
  let processedImage := image in
  if truthy_opt (width options) || truthy_opt (height options) then
    let* originalWidth := Photon.get_width processedImage in
    let* originalHeight := Photon.get_height processedImage in
    let d := calculateDimensions originalWidth originalHeight
               (width options) (height options) in
    if negb (JSNumber.eq (newWidth d) originalWidth)
       || negb (JSNumber.eq (newHeight d) originalHeight) then
      let* resizedImage :=
        Photon.resize processedImage (newWidth d) (newHeight d) Lanczos3 in
      let* _ :=
        (if negb (processedImage =? image)%nat then Photon.free processedImage
         else ret tt) in
      let processedImage := resizedImage in
      ret processedImage
    else ret processedImage
  else ret processedImage.

Definition processImage (sourceResponse : Response) (options : ImageProxyOptions)
    : M Heap Response :=
  try_catch
    (let contentType := Hdr.get_or_empty (headers sourceResponse) "content-type" in
     if original options then
       ret (new_Response (body sourceResponse) 200 ""
              (Hdr.of_list
                 [("Content-Type", contentType);
                  ("Cache-Control",
                   Hdr.get_or_empty (headers sourceResponse) "cache-control");
                  ("ETag", Hdr.get_or_empty (headers sourceResponse) "etag");
                  ("Last-Modified",
                   Hdr.get_or_empty (headers sourceResponse) "last-modified")]))
     else
       let uint8Array := arrayBuffer sourceResponse in
       let* photonImage :=
         try_catch (Photon.new_from_byteslice uint8Array)
           (fun error =>
              throw (HttpError "Invalid or unsupported image format" 400)) in
       try_catch
         (let* processedImage := applyTransformations photonImage options in
          let outputFormat :=
            determineOutputFormat (format options)
              (Hdr.get (headers sourceResponse) "accept") in
          let* outputBuffer :=
            getImageBuffer processedImage outputFormat (Some (quality options)) in
          let* _ := Photon.free processedImage in
          ret (new_Response (Some outputBuffer) 200 ""
                 (Hdr.of_list
                    [("Content-Type", "image/" +:+ format_name outputFormat);
                     ("Cache-Control",
                      Hdr.get_or_empty (headers sourceResponse) "cache-control");
                     ("ETag", Hdr.get_or_empty (headers sourceResponse) "etag");
                     ("Last-Modified",
                      Hdr.get_or_empty (headers sourceResponse) "last-modified")])))
         (fun error => let* _ := Photon.free photonImage in throw error))
    (fun error => throw (HttpError "Failed to process image" 500)).

Definition fetch : Request -> Env -> World -> Response * World :=
  fetch_handler parseImageProxyOptions processImage.

End WithPlatform.
End SingleFile.

(** ** A concrete platform for examples

    A small URL parser ([scheme://host/path], no user info and no port),
    one upstream image, and a codec whose images are their dimensions. *)

Module Demo.

Definition is_scheme_char (c : ascii) : bool :=
  let n := N_of_ascii c in
  (((97 <=? n) && (n <=? 122)) || ((65 <=? n) && (n <=? 90))
   || JSString.is_digit c || (n =? 43) || (n =? 45) || (n =? 46))%N.

(** What follows [scheme://]. *)
Fixpoint after_scheme (s : string) : option string :=
  match s with
  | EmptyString => None
  | String c r =>
      if is_scheme_char c then
        if JSString.startsWith r "://" then Some (JSString.substring r 3)
        else after_scheme r
      else None
  end.

Fixpoint span_until (stop : ascii -> bool) (s : string) : string * string :=
  match s with
  | EmptyString => (EmptyString, EmptyString)
  | String c r =>
      if stop c then (EmptyString, s)
      else let '(a, b) := span_until stop r in (String c a, b)
  end.

Definition ends_host (c : ascii) : bool :=
  Ascii.eqb c "/" || Ascii.eqb c "?" || Ascii.eqb c "#".

Definition ends_path (c : ascii) : bool :=
  Ascii.eqb c "?" || Ascii.eqb c "#".

Definition parse_URL (s : string) : Result URL :=
  match after_scheme s with
  | Some rest =>
      let '(host, tail) := span_until ends_host rest in
      let '(path, _) := span_until ends_path tail in
      if JSString.is_empty host then Throw (OtherError "Invalid URL")
      else Ok {| hostname := JSString.toLowerCase host;
                 pathname := if JSString.is_empty path then "/" else path |}
  | None => Throw (OtherError "Invalid URL")
  end.

Definition picsum : Response :=
  new_Response (Some "JPEG/800x600") 200 "OK"
    (Hdr.of_list
       [("Content-Type", "image/jpeg");
        ("Cache-Control", "public, max-age=3600");
        ("ETag", "abc")]).

Definition broken : Response :=
  new_Response (Some "not an image") 200 "OK"
    (Hdr.of_list [("Content-Type", "image/png")]).

Definition upstream (u : string) (_ : Headers) : Result Response :=
  if String.eqb u "https://picsum.photos/800/600" then Ok picsum
  else if String.eqb u "https://picsum.photos/broken.png" then Ok broken
  else Ok (new_Response_text "Not Found" 404 ∅).

Definition decode (bytes : string) : Result Bitmap :=
  if String.eqb bytes "JPEG/800x600"
  then Ok {| bm_width := 800; bm_height := 600; bm_pixels := "raw" |}
  else Throw (OtherError "unsupported image").

Definition integer_part (n : number) : option Z :=
  match n with
  | Num q => if JSNumber.isInteger n && JSNumber.gt n (JSNumber.of_Z 0)
             then Some (Qfloor q) else None
  | _ => None
  end.

Definition resize (bm : Bitmap) (w h : number) (_ : SamplingFilter)
    : Result Bitmap :=
  match integer_part w, integer_part h with
  | Some w', Some h' =>
      Ok {| bm_width := w'; bm_height := h'; bm_pixels := bm_pixels bm |}
  | _, _ => Throw (OtherError "unreachable")
  end.

Definition platform : Platform := {|
  new_URL := parse_URL;
  global_fetch := upstream;
  photon_decode := decode;
  photon_resize := resize;
  photon_webp := fun bm => Ok ("webp:" +:+ bm_pixels bm);
  photon_png := fun bm => Ok ("png:" +:+ bm_pixels bm);
  photon_jpeg := fun bm _ => Ok ("jpeg:" +:+ bm_pixels bm);
  ZodError_message := fun issues =>
    String.concat "; " (List.map (fun i => issue_path i +:+ ": " +:+ issue_code i) issues)
|}.

(** The same platform with a WebP encoder that fails. *)
Definition platform_no_webp : Platform := {|
  new_URL := parse_URL;
  global_fetch := upstream;
  photon_decode := decode;
  photon_resize := resize;
  photon_webp := fun _ => Throw (OtherError "encoder failure");
  photon_png := fun bm => Ok ("png:" +:+ bm_pixels bm);
  photon_jpeg := fun bm _ => Ok ("jpeg:" +:+ bm_pixels bm);
  ZodError_message := fun _ => "invalid"
|}.

Definition env : Env :=
  {| ALLOWED_DOMAINS := ["picsum.photos"]; MAX_WIDTH := "4000";
     MAX_HEIGHT := "4000" |}.

Definition get (u : string) : Request :=
  {| method := "GET"; url := u; req_headers := ∅ |}.

Definition empty_world : World := {| heap := empty_heap; cache := ∅ |}.

End Demo.

(** ** Definitions used to state the properties *)

(** The four headers [addCorsHeaders] sets, by lower-case name. *)
Definition cors_value (lower_name : string) : option string :=
  if String.eqb lower_name "access-control-allow-origin" then Some "*"
  else if String.eqb lower_name "access-control-allow-methods" then Some "GET, OPTIONS"
  else if String.eqb lower_name "access-control-allow-headers" then Some "Content-Type"
  else if String.eqb lower_name "x-content-type-options" then Some "nosniff"
  else None.

(** The headers of a pass-through response, by lower-case name. *)
Definition passthrough_name (lower_name : string) : bool :=
  String.eqb lower_name "content-type"
  || String.eqb lower_name "cache-control"
  || String.eqb lower_name "etag"
  || String.eqb lower_name "last-modified".

(** An allow-list entry matches a host name: they are equal, or the entry
    is [*.] followed by a suffix and the host name is that suffix or ends
    with a dot followed by it. *)
Definition entry_matches (host entry : string) : Prop :=
  host = entry
  \/ exists suffix : string,
       entry = "*." +:+ suffix
       /\ (host = suffix \/ exists pre : string, host = pre +:+ "." +:+ suffix).

(** An entry of the normalized allow-list: a listed entry trimmed and
    lower-cased, unless that leaves nothing. *)
Definition normalized_entry (allowList : list string) (entry : string) : Prop :=
  entry <> ""
  /\ exists raw : string,
       In raw allowList /\ entry = JSString.toLowerCase (JSString.trim raw).

(** The domain validator as the specification words it. *)
Definition isAllowed {platform : Platform} (sourceUrl : string)
    (allowList : list string) : Prop :=
  exists parsed : URL,
    new_URL sourceUrl = Ok parsed
    /\ ((forall entry, ~ normalized_entry allowList entry)
        \/ exists entry,
             normalized_entry allowList entry
             /\ entry_matches (JSString.toLowerCase (hostname parsed)) entry).

(** What the single file's tokenizer lets through for a dimension and for
    the quality. *)
Definition checked_dimension (limit : number) (v : value) : Prop :=
  v = undefined
  \/ exists n, v = num n /\ JSNumber.isNaN n = false
               /\ JSNumber.isInteger n = true
               /\ JSNumber.gt n (JSNumber.of_Z 0) = true
               /\ JSNumber.le n limit = true.

Definition checked_quality (v : value) : Prop :=
  v = undefined
  \/ exists n, v = num n /\ JSNumber.isNaN n = false
               /\ JSNumber.isInteger n = true
               /\ JSNumber.ge n (JSNumber.of_Z 1) = true
               /\ JSNumber.le n (JSNumber.of_Z 100) = true.

Definition checked_format (v : value) : Prop :=
  v = undefined \/ exists s, v = str s /\ SingleFile.known_format s = true.

Record checked (maxWidth maxHeight : number) (c : Candidate) : Prop := {
  checked_w : checked_dimension maxWidth (c_width c);
  checked_h : checked_dimension maxHeight (c_height c);
  checked_f : checked_format (c_format c);
  checked_q : checked_quality (c_quality c);
  checked_o : c_original c = undefined \/ c_original c = boolean true
}.

(** A value the single file's tokenizer refuses for a dimension: not a
    number, not positive, or above the limit. *)
Definition out_of_range (limit n : number) : Prop :=
  JSNumber.isNaN n = true
  \/ JSNumber.gt n (JSNumber.of_Z 0) = false
  \/ JSNumber.le n limit = false.

Definition bad_quality (n : number) : Prop :=
  JSNumber.isNaN n = true
  \/ JSNumber.ge n (JSNumber.of_Z 1) = false
  \/ JSNumber.le n (JSNumber.of_Z 100) = false.

(** A token with a recognized key whose value fails the validation of
    that key. *)
Definition rejected_token (maxWidth maxHeight : number) (part : string) : Prop :=
  let trimmed := JSString.trim part in
  let arg := JSString.substring trimmed 2 in
  (JSString.startsWith trimmed "w_" = true
   /\ out_of_range maxWidth (JSConv.parseInt arg))
  \/ (JSString.startsWith trimmed "h_" = true
      /\ out_of_range maxHeight (JSConv.parseInt arg))
  \/ (JSString.startsWith trimmed "s_" = true
      /\ (SingleFile.match_size arg = None
          \/ exists g1 g2, SingleFile.match_size arg = Some (g1, g2)
                /\ (out_of_range maxWidth (JSConv.parseInt g1)
                    \/ out_of_range maxHeight (JSConv.parseInt g2))))
  \/ (JSString.startsWith trimmed "f_" = true
      /\ SingleFile.known_format arg = false)
  \/ (JSString.startsWith trimmed "q_" = true
      /\ bad_quality (JSConv.parseInt arg)).

(** What a part of the operations string stands for in the modular
    tokenizer: a key of the table and the raw text after the first
    underscore. *)
Definition Worker_token (part : string) : option (Worker.OptionKey * value) :=
  match JSString.split (JSString.trim part) "_" with
  | key :: rest =>
      match Worker.keyToOption key with
      | Some o => Some (o, match rest with v :: _ => str v | [] => undefined end)
      | None => None
      end
  | [] => None
  end.

Definition candidate_field (o : Worker.OptionKey) (c : Candidate) : value :=
  match o with
  | Worker.opt_width => c_width c
  | Worker.opt_height => c_height c
  | Worker.opt_format => c_format c
  | Worker.opt_quality => c_quality c
  end.

Definition is_valid {A} (p : Parsed A) : bool :=
  match p with Valid _ => true | Invalid _ => false end.

(** Whether the schema accepts a value for the field of a key. *)
Definition schema_accepts (env : Env) (o : Worker.OptionKey) (v : value) : bool :=
  match o with
  | Worker.opt_width =>
      is_valid (Zod.optional
                  (Zod.coerce_number "width"
                     [Zod.int; Zod.positive;
                      Zod.max (JSConv.parseInt (MAX_WIDTH env))]) v)
  | Worker.opt_height =>
      is_valid (Zod.optional
                  (Zod.coerce_number "height"
                     [Zod.int; Zod.positive;
                      Zod.max (JSConv.parseInt (MAX_HEIGHT env))]) v)
  | Worker.opt_format =>
      is_valid (Zod.default auto (Zod.enum_format "format") v)
  | Worker.opt_quality =>
      is_valid (Zod.default (JSNumber.of_Z 85)
                  (Zod.coerce_number "quality"
                     [Zod.int; Zod.min (JSNumber.of_Z 1);
                      Zod.max (JSNumber.of_Z 100)]) v)
  end.

(** No part of the list is a token for the key [o]. *)
Definition no_token_for (o : Worker.OptionKey) (parts : list string) : Prop :=
  forall p v, In p parts -> Worker_token p <> Some (o, v).

Fixpoint all_digits (s : string) : bool :=
  match s with
  | EmptyString => true
  | String c r => JSString.is_digit c && all_digits r
  end.

(** A part of the operations string that leaves the width and the height
    of every candidate of the single file's tokenizer as they are. *)
Definition keeps_dimensions (maxWidth maxHeight : number) (part : string) : Prop :=
  forall c : Candidate,
    c_width (SingleFile.apply_part maxWidth maxHeight c part) = c_width c
    /\ c_height (SingleFile.apply_part maxWidth maxHeight c part) = c_height c.


(** * Verified properties *)

(** ** Binary64 rounding *)

Lemma nearest_even_close (s : Q) :
  (s - (1 # 2) <= inject_Z (Binary64.nearest_even s) <= s + (1 # 2))%Q.
Proof.
  unfold Binary64.nearest_even.
  pose proof (Qfloor_le s) as Hlo. pose proof (Qlt_floor s) as Hhi.
  rewrite inject_Z_plus in Hhi.
  destruct (Qcompare_spec (s - inject_Z (Qfloor s)) (1 # 2)) as [E|L|G].
  - destruct (Z.even (Qfloor s)); rewrite ?inject_Z_plus;
      change (inject_Z 1) with 1%Q in *; split; lra.
  - change (inject_Z 1) with 1%Q in *. split; lra.
  - rewrite inject_Z_plus. change (inject_Z 1) with 1%Q in *. split; lra.
Qed.

Lemma pow2_pos (e : Z) : (0 < Binary64.pow2 e)%Q.
Proof. apply Qpower_0_lt. reflexivity. Qed.

Lemma pow2_plus (a b : Z) : (Binary64.pow2 (a + b) == Binary64.pow2 a * Binary64.pow2 b)%Q.
Proof. apply Qpower_plus. discriminate. Qed.

Lemma pow2_succ (a : Z) : (Binary64.pow2 (a + 1) == 2 * Binary64.pow2 a)%Q.
Proof. rewrite pow2_plus. change (Binary64.pow2 1) with 2%Q. ring. Qed.

(** A positive rational is at least [2^(k-1)] for [k] the difference of
    the binary logarithms of its numerator and denominator. *)
Lemma log2_lower (q : Q) :
  (0 < q)%Q ->
  (Binary64.pow2 (Z.log2 (Qnum q) - Z.log2 (Zpos (Qden q)) - 1) <= q)%Q.
Proof.
  destruct q as [n d]. unfold Qlt. cbn [Qnum Qden]. intros Hn.
  assert (Hn' : 0 < n) by lia.
  pose proof (Z.log2_spec n Hn') as [Hlo _].
  pose proof (Z.log2_spec (Zpos d) (Pos2Z.is_pos d)) as [_ Hhi].
  pose proof (Z.log2_nonneg n) as Ha. pose proof (Z.log2_nonneg (Zpos d)) as Hb.
  set (a := Z.log2 n) in *. set (b := Z.log2 (Zpos d)) in *.
  replace (a - b - 1) with (a - (b + 1)) by lia.
  unfold Binary64.pow2. rewrite Qpower_minus by discriminate.
  rewrite <- !(Zpower_Qpower 2) by lia.
  apply Qle_shift_div_r.
  - change 0%Q with (inject_Z 0). rewrite <- Zlt_Qlt.
    apply Z.pow_pos_nonneg; lia.
  - unfold Qle, Qmult. cbn [Qnum Qden inject_Z].
    change (Z.succ b) with (b + 1) in Hhi.
    generalize dependent (2 ^ a). generalize dependent (2 ^ (b + 1)).
    intros P Hhi A Hlo. nia.
Qed.

Lemma ulp_exponent_scaled (q : Q) :
  (0 < q)%Q -> (Binary64.pow2 52 <= q / Binary64.pow2 (Binary64.ulp_exponent q))%Q.
Proof.
  intros Hq. unfold Binary64.ulp_exponent.
  set (k := Z.log2 (Qnum q) - Z.log2 (Zpos (Qden q))).
  destruct (Qle_bool (Binary64.pow2 52) (q / Binary64.pow2 (k - 52))) eqn:E.
  - now apply Qle_bool_iff.
  - pose proof (log2_lower q Hq) as Hlow. fold k in Hlow.
    apply Qle_shift_div_l; [apply pow2_pos|].
    rewrite <- pow2_plus. replace (52 + (k - 53)) with (k - 1) by lia.
    exact Hlow.
Qed.

Lemma u_pow2 : (Binary64.u * Binary64.pow2 52 == 1 # 2)%Q.
Proof. reflexivity. Qed.

Lemma round_positive_error (q : Q) :
  (0 < q)%Q ->
  (q * (1 - Binary64.u) <= Binary64.round_positive q
   <= q * (1 + Binary64.u))%Q.
Proof.
  intros Hq. unfold Binary64.round_positive. rewrite Qred_correct.
  set (e := Binary64.ulp_exponent q).
  pose proof (ulp_exponent_scaled q Hq) as Hs. fold e in Hs.
  pose proof (pow2_pos e) as He.
  pose proof (nearest_even_close (q / Binary64.pow2 e)) as [Hlo Hhi].
  set (s := (q / Binary64.pow2 e)%Q) in *.
  set (m := inject_Z (Binary64.nearest_even s)) in *.
  assert (Hq' : (q == s * Binary64.pow2 e)%Q).
  { unfold s. field. intros Z0. rewrite Z0 in He. now apply Qlt_irrefl in He. }
  assert (Hhalf : ((1 # 2) <= s * Binary64.u)%Q).
  { rewrite <- u_pow2. rewrite (Qmult_comm s Binary64.u).
    apply Qmult_le_l; [reflexivity|exact Hs]. }
  rewrite Hq'. split.
  - setoid_replace (s * Binary64.pow2 e * (1 - Binary64.u))%Q
      with ((s - s * Binary64.u) * Binary64.pow2 e)%Q using relation Qeq by ring.
    apply Qmult_le_compat_r; [lra|now apply Qlt_le_weak].
  - setoid_replace (s * Binary64.pow2 e * (1 + Binary64.u))%Q
      with ((s + s * Binary64.u) * Binary64.pow2 e)%Q using relation Qeq by ring.
    apply Qmult_le_compat_r; [lra|now apply Qlt_le_weak].
Qed.

Lemma round_error (q : Q) :
  (0 < q)%Q ->
  (q * (1 - Binary64.u) <= Binary64.round q <= q * (1 + Binary64.u))%Q.
Proof.
  intros Hq. unfold Binary64.round.
  destruct (Qcompare_spec q 0) as [E|L|G].
  - rewrite E in Hq. now apply Qlt_irrefl in Hq.
  - exfalso. apply (Qlt_irrefl 0). now apply Qlt_trans with q.
  - now apply round_positive_error.
Qed.

Lemma round_positive_value (q : Q) : (0 < q)%Q -> (0 < Binary64.round q)%Q.
Proof.
  intros Hq. destruct (round_error q Hq) as [Hlo _].
  apply Qlt_le_trans with (q * (1 - Binary64.u))%Q; [|exact Hlo].
  apply Qmult_lt_0_compat; [exact Hq|reflexivity].
Qed.


Lemma Qred_inject_Z (z : Z) : Qred (inject_Z z) = inject_Z z.
Proof. apply Qred_identity. cbn. apply Z.gcd_1_r. Qed.

Lemma nearest_even_comp (p q : Q) : (p == q)%Q -> Binary64.nearest_even p = Binary64.nearest_even q.
Proof.
  intros E. unfold Binary64.nearest_even. rewrite (Qfloor_comp _ _ E).
  assert (E' : (p - inject_Z (Qfloor q) == q - inject_Z (Qfloor q))%Q)
    by (rewrite E; reflexivity).
  rewrite (Qcompare_comp _ _ E' (1#2) (1#2) (Qeq_refl _)). reflexivity.
Qed.

Lemma nearest_even_Z (w : Z) : Binary64.nearest_even (inject_Z w) = w.
Proof.
  unfold Binary64.nearest_even. rewrite Qfloor_Z.
  assert (E : (inject_Z w - inject_Z w ?= 1 # 2)%Q = Lt).
  { apply Qlt_alt.
    setoid_replace (inject_Z w - inject_Z w)%Q with 0%Q using relation Qeq by ring. reflexivity. }
  now rewrite E.
Qed.

Lemma pow2_nonneg_Z (e : Z) : 0 <= e -> (Binary64.pow2 e == inject_Z (2 ^ e))%Q.
Proof. intros He. unfold Binary64.pow2. now rewrite (Zpower_Qpower 2 e He). Qed.

Lemma pow2_nonpos_Z (e : Z) : e <= 0 -> (Binary64.pow2 e == / inject_Z (2 ^ (- e)))%Q.
Proof.
  intros He. unfold Binary64.pow2. replace e with (- - e) at 1 by lia.
  rewrite Qpower_opp. rewrite <- (Zpower_Qpower 2) by lia. reflexivity.
Qed.

Lemma round_positive_Z (z : Z) :
  0 < z ->
  (Binary64.ulp_exponent (inject_Z z) <= 0 ->
   Binary64.round_positive (inject_Z z) = inject_Z z)
  /\ exists z', Binary64.round_positive (inject_Z z) = inject_Z z'.
Proof.
  intros Hz. unfold Binary64.round_positive. set (e := Binary64.ulp_exponent (inject_Z z)).
  assert (Hsmall : e <= 0 ->
            Qred (inject_Z (Binary64.nearest_even (inject_Z z / Binary64.pow2 e))
                  * Binary64.pow2 e) = inject_Z z).
  { intros He.
    assert (P : 0 < 2 ^ (- e)) by (apply Z.pow_pos_nonneg; lia).
    assert (Es : (inject_Z z / Binary64.pow2 e == inject_Z (z * 2 ^ (- e)))%Q).
    { rewrite (pow2_nonpos_Z e He), inject_Z_mult. field.
      intros Z0. apply (Qeq_bool_neq (inject_Z (2 ^ (- e))) 0); [|exact Z0].
      apply not_true_is_false. intros T. apply Qeq_bool_eq in T.
      unfold Qeq in T. cbn in T. lia. }
    rewrite (nearest_even_comp _ _ Es), nearest_even_Z.
    rewrite <- (Qred_inject_Z z). apply Qred_complete.
    rewrite (pow2_nonpos_Z e He), inject_Z_mult. field.
    intros Z0. unfold Qeq in Z0. cbn in Z0. lia. }
  split; [exact Hsmall|].
  destruct (Z_le_gt_dec e 0) as [He|He].
  - exists z. now apply Hsmall.
  - exists (Binary64.nearest_even (inject_Z z / Binary64.pow2 e) * 2 ^ e).
    rewrite <- (Qred_inject_Z (_ * _)). apply Qred_complete.
    rewrite inject_Z_mult.
    apply Qmult_comp; [reflexivity|apply pow2_nonneg_Z; lia].
Qed.

(** Rounding an integer gives an integer. *)
Lemma round_Z (z : Z) : exists z', Binary64.round (inject_Z z) = inject_Z z'.
Proof.
  unfold Binary64.round.
  destruct (Qcompare_spec (inject_Z z) 0) as [E|L|G].
  - exists 0. reflexivity.
  - assert (Hz : 0 < - z).
    { unfold Qlt in L. cbn in L. lia. }
    destruct (round_positive_Z (- z) Hz) as [_ [z' Hz']].
    exists (- z'). change (- inject_Z z)%Q with (inject_Z (- z)). rewrite Hz'.
    reflexivity.
  - assert (Hz : 0 < z).
    { unfold Qlt in G. cbn in G. lia. }
    destruct (round_positive_Z z Hz) as [_ [z' Hz']]. eauto.
Qed.

Lemma ulp_exponent_small (z : Z) :
  0 < z -> z < 2 ^ 53 -> Binary64.ulp_exponent (inject_Z z) <= 0.
Proof.
  intros Hz Hlt. unfold Binary64.ulp_exponent. cbn [Qnum Qden inject_Z].
  change (Z.log2 1) with 0.
  assert (Z.log2 z < 53) by (apply Z.log2_lt_pow2; lia).
  destruct (Qle_bool _ _); lia.
Qed.

(** Integers below [2^53] in absolute value are binary64 values. *)
Lemma round_small_Z (z : Z) :
  - 2 ^ 53 < z < 2 ^ 53 -> Binary64.round (inject_Z z) = inject_Z z.
Proof.
  intros [Hlo Hhi]. unfold Binary64.round.
  destruct (Qcompare_spec (inject_Z z) 0) as [E|L|G].
  - unfold Qeq in E. cbn in E. replace z with 0 by lia. reflexivity.
  - assert (Hz : 0 < - z).
    { unfold Qlt in L. cbn in L. lia. }
    destruct (round_positive_Z (- z) Hz) as [Hsmall _].
    change (- inject_Z z)%Q with (inject_Z (- z)).
    rewrite Hsmall by (apply ulp_exponent_small; lia).
    unfold inject_Z, Qopp. cbn [Qnum Qden]. now rewrite Z.opp_involutive.
  - assert (Hz : 0 < z).
    { unfold Qlt in G. cbn in G. lia. }
    destruct (round_positive_Z z Hz) as [Hsmall _].
    apply Hsmall. apply ulp_exponent_small; lia.
Qed.

(** The rounding at work: 0.1 and 1/3, ties to even above [2^53], and
    the quotient and product behind the failure of C7 without a bound. *)
Example round_examples :
  Binary64.round (1 # 10) = (3602879701896397 # 36028797018963968)%Q
  /\ Binary64.round (1 # 3) = (6004799503160661 # 18014398509481984)%Q
  /\ Binary64.round (inject_Z 9007199254740993) = inject_Z 9007199254740992
  /\ Binary64.round (inject_Z 9007199254740995) = inject_Z 9007199254740996
  /\ Binary64.round (3914043529589875 # 798) = (1255633011998757 # 256)%Q
  /\ Binary64.round (798 * (1255633011998757 # 256)) = (7828087059179751 # 2)%Q.
Proof. vm_compute. repeat split. Qed.

(** ** Numbers *)

Lemma Qeq_bool_inject_Z_0 (z : Z) : z <> 0 -> Qeq_bool (inject_Z z) 0 = false.
Proof.
  intros Hz. apply not_true_is_false. intros E. apply Qeq_bool_eq in E.
  unfold Qeq in E. simpl in E. lia.
Qed.

Lemma Qeq_bool_positive (q : Q) : (0 < q)%Q -> Qeq_bool q 0 = false.
Proof.
  intros Hq. apply not_true_is_false. intros E. apply Qeq_bool_eq in E.
  rewrite E in Hq. now apply Qlt_irrefl in Hq.
Qed.

Lemma truthy_of_Z (z : Z) : z <> 0 -> JSNumber.truthy (JSNumber.of_Z z) = true.
Proof.
  intros Hz. unfold JSNumber.truthy, JSNumber.of_Z.
  now rewrite Qeq_bool_inject_Z_0.
Qed.

Lemma div_by_positive (p q : Q) :
  (0 < q)%Q -> JSNumber.div (Num p) (Num q) = Num (Binary64.round (p / q)).
Proof. intros Hq. unfold JSNumber.div. now rewrite Qeq_bool_positive. Qed.

Lemma Qltb_true (a b : Q) : JSNumber.Qltb a b = true <-> (a < b)%Q.
Proof.
  unfold JSNumber.Qltb. rewrite negb_true_iff. split.
  - intros E. apply Qnot_le_lt. intros L. apply Qle_bool_iff in L. congruence.
  - intros L. apply not_true_is_false. intros E. apply Qle_bool_iff in E.
    apply (Qlt_not_le _ _ L E).
Qed.

Lemma Qltb_false (a b : Q) : JSNumber.Qltb a b = false <-> (b <= a)%Q.
Proof. unfold JSNumber.Qltb. rewrite negb_false_iff. apply Qle_bool_iff. Qed.

(** [Math.round] of a rational below [z + 1/2] is at most [z]. *)
Lemma round_below (q : Q) (z : Z) :
  (q < inject_Z z + (1 # 2))%Q -> Qfloor (q + (1 # 2)) <= z.
Proof.
  intros Hq. pose proof (Qfloor_le (q + (1 # 2))) as Hfl.
  assert (H3 : (inject_Z (Qfloor (q + (1 # 2))) < inject_Z (z + 1))%Q).
  { rewrite inject_Z_plus. change (inject_Z 1) with 1%Q. lra. }
  rewrite <- Zlt_Qlt in H3. lia.
Qed.

Lemma Qpos_inject (z : Z) : 0 < z -> (0 < inject_Z z)%Q.
Proof. intros. change 0%Q with (inject_Z 0). now rewrite <- Zlt_Qlt. Qed.

Lemma Qdiv_mult_cancel (a b : Q) : (0 < b)%Q -> (a / b * b == a)%Q.
Proof.
  intros Hb. rewrite Qmult_comm. apply Qmult_div_r.
  intros E. rewrite E in Hb. now apply Qlt_irrefl in Hb.
Qed.

Lemma Qdiv_positive (a b : Q) : (0 < a)%Q -> (0 < b)%Q -> (0 < a / b)%Q.
Proof.
  intros Ha Hb. apply Qlt_shift_div_l; [exact Hb|]. now rewrite Qmult_0_l.
Qed.

(** ** The dimension calculator *)

Lemma scaled_quotient_bounds (n d : Q) :
  (0 < n)%Q -> (0 < d)%Q ->
  (n * (1 - Binary64.u) <= Binary64.round (n / d) * d <= n * (1 + Binary64.u))%Q.
Proof.
  intros Hn Hd.
  destruct (round_error (n / d) (Qdiv_positive n d Hn Hd)) as [Hlo Hhi].
  pose proof (Qdiv_mult_cancel n d Hd) as Hc.
  split.
  - setoid_replace (n * (1 - Binary64.u))%Q
      with (n / d * (1 - Binary64.u) * d)%Q using relation Qeq by (rewrite <- Hc at 1; ring).
    apply Qmult_le_compat_r; [exact Hlo|now apply Qlt_le_weak].
  - setoid_replace (n * (1 + Binary64.u))%Q
      with (n / d * (1 + Binary64.u) * d)%Q using relation Qeq by (rewrite <- Hc at 1; ring).
    apply Qmult_le_compat_r; [exact Hhi|now apply Qlt_le_weak].
Qed.

(** C7, with the targets bounded.  With positive integer original
    dimensions and both targets given as positive integers up to [2^50],
    [calculateDimensions] returns integers [newWidth <= targetWidth] and
    [newHeight <= targetHeight]. *)
Theorem calculateDimensions_fits (ow oh tw th : Z) :
  0 < ow -> 0 < oh -> 0 < tw <= 2 ^ 50 -> 0 < th <= 2 ^ 50 ->
  exists nw nh : Z,
    calculateDimensions (JSNumber.of_Z ow) (JSNumber.of_Z oh)
      (Some (JSNumber.of_Z tw)) (Some (JSNumber.of_Z th))
    = {| newWidth := JSNumber.of_Z nw; newHeight := JSNumber.of_Z nh |}
    /\ nw <= tw /\ nh <= th.
Proof.
  intros How Hoh [Htw Htw'] [Hth Hth'].
  unfold calculateDimensions. cbn [truthy_opt number_of_opt].
  rewrite !truthy_of_Z by lia. cbn [negb andb].
  pose proof (Qpos_inject _ How) as Qow. pose proof (Qpos_inject _ Hoh) as Qoh.
  pose proof (Qpos_inject _ Htw) as Qtw. pose proof (Qpos_inject _ Hth) as Qth.
  rewrite Zle_Qle in Htw', Hth'.
  change (inject_Z (2 ^ 50)) with (1125899906842624 # 1)%Q in Htw', Hth'.
  unfold JSNumber.of_Z.
  rewrite !div_by_positive by assumption.
  set (a := Binary64.round (inject_Z ow / inject_Z oh)).
  set (t := Binary64.round (inject_Z tw / inject_Z th)).
  assert (Ha : (0 < a)%Q)
    by (apply round_positive_value, Qdiv_positive; assumption).
  destruct (scaled_quotient_bounds (inject_Z tw) (inject_Z th) Qtw Qth)
    as [Htlo Hthi]. fold t in Htlo, Hthi.
  unfold Binary64.u in Htlo, Hthi.
  destruct (JSNumber.gt _ _) eqn:Hgt.
  - apply Qltb_true in Hgt.
    exists tw, (Qfloor (Binary64.round (inject_Z tw / a) + (1 # 2))).
    split; [|split; [lia|]].
    + now rewrite div_by_positive.
    + apply round_below.
      assert (Hx : (0 < inject_Z tw / a)%Q) by (apply Qdiv_positive; assumption).
      destruct (round_error _ Hx) as [_ Hr]. unfold Binary64.u in Hr.
      pose proof (Qdiv_mult_cancel (inject_Z tw) a Ha) as Hxa.
      set (x := (inject_Z tw / a)%Q) in *.
      assert (Hxt : (x * (1 - (1 # 9007199254740992)) < inject_Z th)%Q).
      { apply Qmult_lt_r with a; [exact Ha|].
        setoid_replace (x * (1 - (1 # 9007199254740992)) * a)%Q
          with (x * a * (1 - (1 # 9007199254740992)))%Q using relation Qeq by ring.
        rewrite Hxa.
        apply Qle_lt_trans with (t * inject_Z th)%Q; [exact Htlo|].
        rewrite (Qmult_comm t), (Qmult_comm (inject_Z th) a), (Qmult_comm a).
        apply Qmult_lt_l; assumption. }
      lra.
  - apply Qltb_false in Hgt.
    exists (Qfloor (Binary64.round (inject_Z th * a) + (1 # 2))), th.
    split; [|split; [|lia]].
    + reflexivity.
    + apply round_below.
      assert (Hy : (0 < inject_Z th * a)%Q) by (apply Qmult_lt_0_compat; assumption).
      destruct (round_error _ Hy) as [_ Hr]. unfold Binary64.u in Hr.
      assert (Hyt : (inject_Z th * a
                     <= inject_Z tw * (1 + (1 # 9007199254740992)))%Q).
      { apply Qle_trans with (t * inject_Z th)%Q; [|exact Hthi].
        rewrite (Qmult_comm t).
        apply Qmult_le_l; assumption. }
      set (y := (inject_Z th * a)%Q) in *. lra.
Qed.

Lemma calculateDimensions_fits_witness :
  exists nw nh : Z,
    calculateDimensions (JSNumber.of_Z 800) (JSNumber.of_Z 600)
      (Some (JSNumber.of_Z 400)) (Some (JSNumber.of_Z 400))
    = {| newWidth := JSNumber.of_Z nw; newHeight := JSNumber.of_Z nh |}
    /\ nw <= 400 /\ nh <= 400.
Proof. apply (calculateDimensions_fits 800 600 400 400); lia. Defined.

(** Without the bound C7 fails: for a 3914043529589875 x 798 image and the
    same numbers as targets, the division and the multiplication round to
    3914043529589875.5, which [Math.round] takes to 3914043529589876. *)
Lemma calculateDimensions_exceeds_target :
  ~ (forall ow oh tw th : Z,
        0 < ow -> 0 < oh -> 0 < tw -> 0 < th ->
        exists nw nh : Z,
          calculateDimensions (JSNumber.of_Z ow) (JSNumber.of_Z oh)
            (Some (JSNumber.of_Z tw)) (Some (JSNumber.of_Z th))
          = {| newWidth := JSNumber.of_Z nw; newHeight := JSNumber.of_Z nh |}
          /\ nw <= tw /\ nh <= th).
Proof.
  intros H.
  destruct (H 3914043529589875 798 3914043529589875 798)
    as (nw & nh & E & Hw & _); try lia.
  assert (E' : calculateDimensions (JSNumber.of_Z 3914043529589875)
                 (JSNumber.of_Z 798) (Some (JSNumber.of_Z 3914043529589875))
                 (Some (JSNumber.of_Z 798))
               = {| newWidth := JSNumber.of_Z 3914043529589876;
                    newHeight := JSNumber.of_Z 798 |})
    by (vm_compute; reflexivity).
  rewrite E' in E. injection E as E1 E2. lia.
Qed.

(** C9. [calculateDimensions] can return 0 for a dimension although the
    original dimensions and the target are positive: a 1000 x 1 image
    with target width 100 gets height [Math.round(100 / 1000) = 0]. *)
Theorem calculateDimensions_zero_height :
  calculateDimensions (JSNumber.of_Z 1000) (JSNumber.of_Z 1)
    (Some (JSNumber.of_Z 100)) None
  = {| newWidth := JSNumber.of_Z 100; newHeight := JSNumber.of_Z 0 |}
  /\ exists ow oh tw : Z,
       0 < ow /\ 0 < oh /\ 0 < tw
       /\ newHeight
            (calculateDimensions (JSNumber.of_Z ow) (JSNumber.of_Z oh)
               (Some (JSNumber.of_Z tw)) None)
          = JSNumber.of_Z 0.
Proof.
  split; [vm_compute; reflexivity|].
  exists 1000, 1, 100. repeat split; lia || (vm_compute; reflexivity).
Qed.

(** ** CORS headers *)

Lemma get_set (h : Headers) (k v name : string) :
  Hdr.get (Hdr.set h k v) name
  = if String.eqb (JSString.toLowerCase k) (JSString.toLowerCase name)
    then Some v else Hdr.get h name.
Proof.
  unfold Hdr.get, Hdr.set. rewrite lookup_insert.
  destruct (String.eqb_spec (JSString.toLowerCase k) (JSString.toLowerCase name));
    case_decide; congruence.
Qed.

(** C10. [addCorsHeaders] keeps status, status text and body; a header
    lookup in its result gives the fixed value for the four CORS names
    (whatever the input held) and the input's own answer for every other
    name. *)
Theorem addCorsHeaders_frame (response : Response) :
  status (addCorsHeaders response) = status response
  /\ statusText (addCorsHeaders response) = statusText response
  /\ body (addCorsHeaders response) = body response
  /\ forall name : string,
       Hdr.get (headers (addCorsHeaders response)) name
       = match cors_value (JSString.toLowerCase name) with
         | Some v => Some v
         | None => Hdr.get (headers response) name
         end.
Proof.
  repeat split. intros name. unfold addCorsHeaders. cbn [headers new_Response].
  rewrite !get_set. unfold cors_value.
  change (JSString.toLowerCase "X-Content-Type-Options") with "x-content-type-options".
  change (JSString.toLowerCase "Access-Control-Allow-Headers") with "access-control-allow-headers".
  change (JSString.toLowerCase "Access-Control-Allow-Methods") with "access-control-allow-methods".
  change (JSString.toLowerCase "Access-Control-Allow-Origin") with "access-control-allow-origin".
  generalize (JSString.toLowerCase name) as n. intros n.
  rewrite !(String.eqb_sym n).
  destruct (String.eqb "x-content-type-options" n) eqn:E1;
  destruct (String.eqb "access-control-allow-headers" n) eqn:E2;
  destruct (String.eqb "access-control-allow-methods" n) eqn:E3;
  destruct (String.eqb "access-control-allow-origin" n) eqn:E4;
    try reflexivity;
    repeat match goal with
           | H : String.eqb _ n = true |- _ => apply String.eqb_eq in H
           end; congruence.
Qed.

(** ** The transformation orchestrator *)

Section ProcessImage.
Context {platform : Platform}.

Lemma get_or_empty_lower (h : Headers) (name lower_name : string) :
  JSString.toLowerCase name = JSString.toLowerCase lower_name ->
  Hdr.get_or_empty h lower_name = Hdr.get_or_empty h name.
Proof. intros E. unfold Hdr.get_or_empty, Hdr.get. now rewrite E. Qed.

(** C8. With [original = true], [processImage] (either copy) returns,
    whatever the other option fields and leaving the codec untouched, one
    and the same response: status 200, the source body, and exactly the
    headers Content-Type, Cache-Control, ETag and Last-Modified, each with
    the source's value or the empty string when the source has none. *)
Theorem processImage_original (sourceResponse : Response) :
  exists r : Response,
    (forall (options : ImageProxyOptions) (h : Heap),
        original options = true ->
        Worker.processImage sourceResponse options h = (Ok r, h)
        /\ SingleFile.processImage sourceResponse options h = (Ok r, h))
    /\ status r = 200
    /\ body r = body sourceResponse
    /\ forall name : string,
         Hdr.get (headers r) name
         = if passthrough_name (JSString.toLowerCase name)
           then Some (Hdr.get_or_empty (headers sourceResponse) name)
           else None.
Proof.
  eexists. split; [|split; [|split]].
  - intros options h Horig. split.
    + unfold Worker.processImage. rewrite Horig. reflexivity.
    + unfold SingleFile.processImage, try_catch. rewrite Horig. reflexivity.
  - reflexivity.
  - reflexivity.
  - intros name. cbn [headers new_Response Hdr.of_list foldl fst snd].
    rewrite !get_set. unfold passthrough_name.
    change (JSString.toLowerCase "Last-Modified") with "last-modified".
    change (JSString.toLowerCase "ETag") with "etag".
    change (JSString.toLowerCase "Cache-Control") with "cache-control".
    change (JSString.toLowerCase "Content-Type") with "content-type".
    rewrite !(String.eqb_sym (JSString.toLowerCase name)).
    destruct (String.eqb "last-modified" _) eqn:E1;
    destruct (String.eqb "etag" _) eqn:E2;
    destruct (String.eqb "cache-control" _) eqn:E3;
    destruct (String.eqb "content-type" _) eqn:E4;
      cbn [orb];
      repeat match goal with
             | H : String.eqb _ _ = true |- _ => apply String.eqb_eq in H
             end;
      try congruence;
      try (f_equal; apply get_or_empty_lower; symmetry; assumption).
Qed.

(** C2. When the source bytes do not decode and [original = false],
    [processImage] (either copy) rejects with status 500 and message
    "Failed to process image"; the single file raises the 400 error first
    but its outer [catch] replaces it. *)
Theorem processImage_decode_failure (sourceResponse : Response)
    (options : ImageProxyOptions) (h : Heap) (e : thrown) :
  original options = false ->
  photon_decode (arrayBuffer sourceResponse) = Throw e ->
  Worker.processImage sourceResponse options h
  = (Throw (HttpError "Failed to process image" 500), Photon.record call_decode h)
  /\ SingleFile.processImage sourceResponse options h
     = (Throw (HttpError "Failed to process image" 500), Photon.record call_decode h).
Proof.
  intros Horig Hdec. split.
  - unfold Worker.processImage. rewrite Horig.
    unfold try_catch, bind, Photon.new_from_byteslice. rewrite Hdec. reflexivity.
  - unfold SingleFile.processImage. rewrite Horig.
    unfold try_catch, bind, Photon.new_from_byteslice. rewrite Hdec. reflexivity.
Qed.

Lemma getImageBuffer_state (p : nat) (fmt : OutputFormat) (q : option number)
    (h : Heap) :
  exists r, getImageBuffer p fmt q h = (r, Photon.record (call_encode p) h).
Proof.
  unfold getImageBuffer, Photon.get_bytes_webp, Photon.get_bytes,
    Photon.get_bytes_jpeg, Photon.encode_with.
  destruct fmt, q; destruct (live _ !! p); eauto.
Qed.

End ProcessImage.

Lemma processImage_original_witness :
  exists r : Response,
    Worker.processImage (platform := Demo.platform) Demo.picsum
      {| width := Some (JSNumber.of_Z 400); height := None; format := webp;
         quality := JSNumber.of_Z 10; original := true |} empty_heap
    = (Ok r, empty_heap)
    /\ body r = Some "JPEG/800x600"
    /\ Hdr.get (headers r) "Content-Type" = Some "image/jpeg"
    /\ Hdr.get (headers r) "Last-Modified" = Some "".
Proof.
  destruct (processImage_original (platform := Demo.platform) Demo.picsum)
    as (r & Hrun & _ & Hbody & Hget).
  exists r. split; [|split; [|split]].
  - apply Hrun. reflexivity.
  - rewrite Hbody. reflexivity.
  - rewrite Hget. reflexivity.
  - rewrite Hget. reflexivity.
Defined.

Lemma processImage_decode_failure_witness :
  Worker.processImage (platform := Demo.platform) Demo.broken
    {| width := Some (JSNumber.of_Z 400); height := None; format := auto;
       quality := JSNumber.of_Z 85; original := false |} empty_heap
  = (Throw (HttpError "Failed to process image" 500),
     Photon.record call_decode empty_heap)
  /\ SingleFile.processImage (platform := Demo.platform) Demo.broken
       {| width := Some (JSNumber.of_Z 400); height := None; format := auto;
          quality := JSNumber.of_Z 85; original := false |} empty_heap
     = (Throw (HttpError "Failed to process image" 500),
        Photon.record call_decode empty_heap).
Proof.
  apply (processImage_decode_failure (platform := Demo.platform) Demo.broken _ _
           (OtherError "unsupported image")); reflexivity.
Defined.

(** ** Ownership of decoded images *)

Section Ownership.
Context {platform : Platform}.

Lemma lookup_after_alloc2_free (m : gmap nat Bitmap) (p : nat) (a b : Bitmap) :
  delete (S p) (<[S p := b]> (<[p := a]> m)) !! p = Some a.
Proof.
  rewrite lookup_delete_ne by lia.
  rewrite lookup_insert_ne by lia.
  apply lookup_insert_eq.
Qed.

(** C5 fails in both copies.  Let the source decode to an image at
    pointer [p] and let the options call for a resize, which gives a
    second image at [S p].  When the modular [processImage] returns, the
    source image is still live, whether a response is returned or an
    error thrown (and then the resized image is live too).  The single
    file leaves the source image live when it returns a response and the
    resized image live when it throws. *)
Theorem processImage_leaks (sourceResponse : Response)
    (options : ImageProxyOptions) (h : Heap) (bm : Bitmap) :
  let p := next_ptr h in
  let d := calculateDimensions (JSNumber.of_Z (bm_width bm))
             (JSNumber.of_Z (bm_height bm)) (width options) (height options) in
  original options = false ->
  photon_decode (arrayBuffer sourceResponse) = Ok bm ->
  truthy_opt (width options) || truthy_opt (height options) = true ->
  JSNumber.eq (newWidth d) (JSNumber.of_Z (bm_width bm))
  && JSNumber.eq (newHeight d) (JSNumber.of_Z (bm_height bm)) = false ->
  (forall resized : Bitmap,
      photon_resize bm (newWidth d) (newHeight d) Nearest = Ok resized ->
      match Worker.processImage sourceResponse options h with
      | (Ok _, h') => live h' !! p = Some bm /\ live h' !! S p = None
      | (Throw _, h') => live h' !! p = Some bm /\ live h' !! S p = Some resized
      end)
  /\ (forall resized : Bitmap,
         photon_resize bm (newWidth d) (newHeight d) Lanczos3 = Ok resized ->
         match SingleFile.processImage sourceResponse options h with
         | (Ok _, h') => live h' !! p = Some bm /\ live h' !! S p = None
         | (Throw _, h') => live h' !! p = None /\ live h' !! S p = Some resized
         end).
Proof.
  intros p d Horig Hdec Hwant Hdiff. split; intros resized Hres.
  - unfold Worker.processImage. rewrite Horig.
    unfold Worker.applyTransformations.
    apply orb_true_iff in Hwant.
    assert (Hneg : negb (truthy_opt (width options))
                   && negb (truthy_opt (height options)) = false).
    { destruct Hwant as [-> | ->]; cbn; [reflexivity|apply andb_false_r]. }
    rewrite Hneg.
    unfold try_catch, bind, Photon.new_from_byteslice, Photon.get_width,
      Photon.get_height, Photon.resize.
    rewrite Hdec.
    repeat (cbn [Photon.alloc Photon.record next_ptr live calls];
            rewrite ?lookup_insert_eq).
    fold d. rewrite Hdiff.
    repeat (cbn [Photon.alloc Photon.record next_ptr live calls];
            rewrite ?lookup_insert_eq).
    rewrite Hres.
    cbn [Photon.alloc next_ptr live calls ret].
    match goal with
    | |- context [getImageBuffer ?a ?b ?c ?hh] =>
        destruct (getImageBuffer_state a b c hh) as [r Hr]; rewrite Hr
    end.
    destruct r as [bytes|err];
      cbn [Photon.free Photon.record next_ptr live calls throw ret].
    + split.
      * apply lookup_after_alloc2_free.
      * apply lookup_delete_eq.
    + split.
      * rewrite lookup_insert_ne by lia. apply lookup_insert_eq.
      * apply lookup_insert_eq.
  - unfold SingleFile.processImage. rewrite Horig.
    unfold SingleFile.applyTransformations. rewrite Hwant.
    unfold try_catch, bind, Photon.new_from_byteslice, Photon.get_width,
      Photon.get_height, Photon.resize.
    rewrite Hdec.
    repeat (cbn [Photon.alloc Photon.record next_ptr live calls];
            rewrite ?lookup_insert_eq).
    fold d.
    apply andb_false_iff in Hdiff.
    assert (Hne : negb (JSNumber.eq (newWidth d) (JSNumber.of_Z (bm_width bm)))
                  || negb (JSNumber.eq (newHeight d) (JSNumber.of_Z (bm_height bm)))
                  = true).
    { destruct Hdiff as [-> | ->]; cbn; [reflexivity|apply orb_true_r]. }
    rewrite Hne.
    repeat (cbn [Photon.alloc Photon.record next_ptr live calls];
            rewrite ?lookup_insert_eq).
    rewrite Hres.
    cbn [Photon.alloc next_ptr live calls ret].
    rewrite Nat.eqb_refl. cbn [negb ret].
    match goal with
    | |- context [getImageBuffer ?a ?b ?c ?hh] =>
        destruct (getImageBuffer_state a b c hh) as [r Hr]; rewrite Hr
    end.
    destruct r as [bytes|err];
      cbn [Photon.free Photon.record next_ptr live calls throw ret].
    + split.
      * apply lookup_after_alloc2_free.
      * apply lookup_delete_eq.
    + split.
      * apply lookup_delete_eq.
      * rewrite lookup_delete_ne by lia. apply lookup_insert_eq.
Qed.

End Ownership.

(** ** The domain validator *)

Lemma append_cons (c : ascii) (a b : string) :
  String c a +:+ b = String c (a +:+ b).
Proof. reflexivity. Qed.

Lemma length_append (a b : string) :
  String.length (a +:+ b) = (String.length a + String.length b)%nat.
Proof.
  induction a as [|c a IH]; [reflexivity|].
  rewrite append_cons. cbn [String.length]. now rewrite IH.
Qed.

Lemma append_assoc (a b c : string) : (a +:+ b) +:+ c = a +:+ (b +:+ c).
Proof.
  induction a as [|x a IH]; [reflexivity|].
  rewrite !append_cons. now rewrite IH.
Qed.

Lemma startsWith_spec (s p : string) :
  JSString.startsWith s p = true <-> exists r, s = p +:+ r.
Proof.
  revert s. induction p as [|b p IH]; intros s.
  - destruct s; cbn; split; eauto.
  - destruct s as [|a s]; cbn [JSString.startsWith].
    + split; [discriminate|]. intros [r Hr]. discriminate.
    + rewrite andb_true_iff, IH. split.
      * intros [E [r ->]]. apply Ascii.eqb_eq in E. subst. exists r. reflexivity.
      * intros [r Hr]. rewrite append_cons in Hr. injection Hr as -> ->.
        split; [apply Ascii.eqb_refl|eauto].
Qed.

Lemma substring_append (p r : string) :
  JSString.substring (p +:+ r) (String.length p) = r.
Proof.
  induction p as [|c p IH]; [destruct r; reflexivity|].
  rewrite append_cons. cbn [String.length JSString.substring]. exact IH.
Qed.

Lemma substring_split (s : string) (n : nat) :
  exists pre, s = pre +:+ JSString.substring s n.
Proof.
  revert s. induction n as [|n IH]; intros s.
  - exists "". destruct s; reflexivity.
  - destruct s as [|c s]; cbn [JSString.substring].
    + exists "". reflexivity.
    + destruct (IH s) as [pre Hpre]. exists (String c pre).
      rewrite append_cons. now rewrite <- Hpre.
Qed.

Lemma endsWith_spec (s p : string) :
  JSString.endsWith s p = true <-> exists pre, s = pre +:+ p.
Proof.
  unfold JSString.endsWith. rewrite andb_true_iff, String.eqb_eq. split.
  - intros [_ E]. destruct (substring_split s (String.length s - String.length p))
      as [pre Hpre]. exists pre. now rewrite E in Hpre.
  - intros [pre ->]. rewrite length_append. split.
    + apply Nat.leb_le. lia.
    + replace (String.length pre + String.length p - String.length p)%nat
        with (String.length pre) by lia.
      apply substring_append.
Qed.

Lemma domain_matches_spec (host entry : string) :
  domain_matches host entry = true <-> entry_matches host entry.
Proof.
  unfold domain_matches, entry_matches.
  destruct (JSString.startsWith entry "*.") eqn:Hstar.
  - apply startsWith_spec in Hstar as [suffix ->].
    change (JSString.substring ("*." +:+ suffix) 2) with suffix.
    rewrite orb_true_iff, String.eqb_eq, endsWith_spec. split.
    + intros Hm. right. exists suffix. split; [reflexivity|exact Hm].
    + intros [-> | (suffix' & E & Hm)].
      * right. exists "*". reflexivity.
      * change ("*." +:+ suffix) with (String "*" (String "." suffix)) in E.
        change ("*." +:+ suffix') with (String "*" (String "." suffix')) in E.
        injection E as ->. exact Hm.
  - rewrite String.eqb_eq. split; [auto|].
    intros [-> | (suffix & -> & _)]; [reflexivity|].
    change (JSString.startsWith ("*." +:+ suffix) "*.") with true in Hstar.
    discriminate.
Qed.

Lemma normalize_domains_spec (allowList : list string) (entry : string) :
  In entry (normalize_domains allowList) <-> normalized_entry allowList entry.
Proof.
  unfold normalize_domains, normalized_entry.
  rewrite filter_In, in_map_iff. split.
  - intros [(raw & <- & Hin) Hlen]. split; [|eauto].
    intros E. rewrite E in Hlen. discriminate.
  - intros [Hne (raw & Hin & ->)]. split; [eauto|].
    destruct (JSString.toLowerCase (JSString.trim raw)); [congruence|reflexivity].
Qed.

(** C4. [validateDomain] is true exactly when the URL parses and either
    no entry is left after normalisation or some normalised entry matches
    the lower-cased host name, exactly or as a wildcard. *)
Theorem validateDomain_spec {platform : Platform} (sourceUrl : string)
    (allowList : list string) :
  validateDomain sourceUrl allowList = true <-> isAllowed sourceUrl allowList.
Proof.
  unfold validateDomain, isAllowed.
  destruct (new_URL sourceUrl) as [parsed|e].
  - destruct (normalize_domains allowList) as [|d ds] eqn:Hnorm; cbn [length Nat.eqb].
    + split; [|reflexivity]. intros _. exists parsed. split; [reflexivity|].
      left. intros entry Hentry. apply normalize_domains_spec in Hentry.
      rewrite Hnorm in Hentry. destruct Hentry.
    + rewrite existsb_exists. split.
      * intros (entry & Hin & Hm). exists parsed. split; [reflexivity|].
        right. exists entry. split.
        -- apply normalize_domains_spec. now rewrite Hnorm.
        -- now apply domain_matches_spec.
      * intros (parsed' & E & Hcase). injection E as <-.
        destruct Hcase as [Hnone | (entry & Hentry & Hm)].
        -- exfalso. apply (Hnone d). apply normalize_domains_spec.
           rewrite Hnorm. now left.
        -- exists entry. split.
           ++ rewrite <- Hnorm. now apply normalize_domains_spec.
           ++ now apply domain_matches_spec.
  - split; [discriminate|]. intros (parsed & E & _). discriminate.
Qed.

(** ** The options parser: single file *)

Lemma isInteger_of_Z (z : Z) : JSNumber.isInteger (JSNumber.of_Z z) = true.
Proof.
  unfold JSNumber.isInteger, JSNumber.of_Z. rewrite Qfloor_Z.
  apply Qeq_bool_iff. reflexivity.
Qed.

Lemma le_not_gt (n m : number) : JSNumber.le n m = true -> JSNumber.gt n m = false.
Proof.
  unfold JSNumber.le, JSNumber.gt.
  destruct n as [|[]|p], m as [|[]|q]; cbn; try congruence.
  intros H. apply Qltb_false. apply orb_true_iff in H as [H|H].
  - apply Qltb_true in H. now apply Qlt_le_weak.
  - apply Qeq_bool_eq in H. rewrite H. apply Qle_refl.
Qed.

Lemma gt_not_le (n m : number) : JSNumber.gt n m = true -> JSNumber.le n m = false.
Proof.
  intros H. destruct (JSNumber.le n m) eqn:E; [|reflexivity].
  apply le_not_gt in E. congruence.
Qed.

Lemma nearest_integer (z : Z) :
  exists z', JSNumber.nearest (inject_Z z) = JSNumber.of_Z z'.
Proof.
  destruct (round_Z z) as [z' Hz']. exists z'.
  unfold JSNumber.nearest, JSNumber.of_Z. now rewrite Hz'.
Qed.

(** An integer below [2^53] in absolute value is a number as it is. *)
Lemma nearest_small (z : Z) :
  - 2 ^ 53 < z < 2 ^ 53 -> JSNumber.nearest (inject_Z z) = JSNumber.of_Z z.
Proof.
  intros Hz. unfold JSNumber.nearest, JSNumber.of_Z. now rewrite round_small_Z.
Qed.

Lemma parseInt_cases (s : string) :
  JSConv.parseInt s = NaN \/ exists z, JSConv.parseInt s = JSNumber.of_Z z.
Proof.
  unfold JSConv.parseInt.
  destruct (JSConv.strip_sign _) as [negative r].
  destruct (JSString.span_digits r) as [d rest].
  destruct (JSString.is_empty d); [now left|right].
  apply nearest_integer.
Qed.

Lemma parseInt_integer (s : string) :
  JSNumber.isNaN (JSConv.parseInt s) = false ->
  JSNumber.isInteger (JSConv.parseInt s) = true.
Proof.
  destruct (parseInt_cases s) as [-> | [z ->]]; [discriminate|].
  intros _. apply isInteger_of_Z.
Qed.

Lemma checked_empty (mw mh : number) : checked mw mh empty_candidate.
Proof. split; cbn; auto; left; reflexivity. Qed.

Lemma checked_apply_part (mw mh : number) (c : Candidate) (part : string) :
  checked mw mh c -> checked mw mh (SingleFile.apply_part mw mh c part).
Proof.
  intros [Hw Hh Hf Hq Ho]. unfold SingleFile.apply_part.
  repeat match goal with
         | |- context [if ?b then _ else _] => destruct b eqn:?
         | |- context [match ?o with Some _ => _ | None => _ end] => destruct o as [[? ?]|] eqn:?
         end;
    try (split; assumption);
    repeat match goal with
           | H : _ && _ = true |- _ => apply andb_true_iff in H as [? ?]
           | H : negb _ = true |- _ => apply negb_true_iff in H
           end;
    split; cbn; try assumption.
  - right. eexists. repeat split; eauto using parseInt_integer.
  - right. eexists. repeat split; eauto using parseInt_integer.
  - right. eexists. repeat split; eauto using parseInt_integer.
  - right. eexists. repeat split; eauto using parseInt_integer.
  - right. eexists. split; eauto.
  - right. eexists. repeat split; eauto using parseInt_integer.
Qed.

Lemma checked_transform (env : Env) (optionsStr : string) :
  checked (JSConv.parseInt (MAX_WIDTH env)) (JSConv.parseInt (MAX_HEIGHT env))
    (SingleFile.transform env optionsStr).
Proof.
  unfold SingleFile.transform.
  destruct (String.eqb optionsStr "_").
  - split; cbn; auto; left; reflexivity.
  - generalize (checked_empty (JSConv.parseInt (MAX_WIDTH env))
                  (JSConv.parseInt (MAX_HEIGHT env))).
    generalize empty_candidate as c.
    induction (JSString.split optionsStr ",") as [|part parts IH]; intros c Hc.
    + exact Hc.
    + cbn [foldl]. apply IH. now apply checked_apply_part.
Qed.

Lemma schema_accepts_checked (env : Env) (c : Candidate) :
  checked (JSConv.parseInt (MAX_WIDTH env)) (JSConv.parseInt (MAX_HEIGHT env)) c ->
  exists o, createImageProxyOptionsSchema env c = Valid o.
Proof.
  intros [Hw Hh Hf Hq Ho]. unfold createImageProxyOptionsSchema.
  assert (Ew : exists w, Zod.optional
                 (Zod.coerce_number "width"
                    [Zod.int; Zod.positive; Zod.max (JSConv.parseInt (MAX_WIDTH env))])
                 (c_width c) = Valid w).
  { destruct Hw as [-> | (n & -> & Hnan & Hint & Hpos & Hmax)]; [eexists; reflexivity|].
    unfold Zod.optional, Zod.coerce_number. cbn [ToNumber]. rewrite Hnan.
    cbn. rewrite Hint, (gt_not_le _ _ Hpos), (le_not_gt _ _ Hmax). cbn. eauto. }
  assert (Eh : exists h, Zod.optional
                 (Zod.coerce_number "height"
                    [Zod.int; Zod.positive; Zod.max (JSConv.parseInt (MAX_HEIGHT env))])
                 (c_height c) = Valid h).
  { destruct Hh as [-> | (n & -> & Hnan & Hint & Hpos & Hmax)]; [eexists; reflexivity|].
    unfold Zod.optional, Zod.coerce_number. cbn [ToNumber]. rewrite Hnan.
    cbn. rewrite Hint, (gt_not_le _ _ Hpos), (le_not_gt _ _ Hmax). cbn. eauto. }
  assert (Ef : exists f, Zod.default auto (Zod.enum_format "format") (c_format c)
                         = Valid f).
  { destruct Hf as [-> | (s & -> & Hs)]; [eexists; reflexivity|].
    unfold Zod.default, Zod.enum_format. unfold SingleFile.known_format in Hs.
    destruct (String.eqb s "webp"); [eauto|].
    destruct (String.eqb s "jpeg"); [eauto|].
    destruct (String.eqb s "png"); [eauto|].
    destruct (String.eqb s "auto"); [eauto|discriminate]. }
  assert (Eq : exists q, Zod.default (JSNumber.of_Z 85)
                 (Zod.coerce_number "quality"
                    [Zod.int; Zod.min (JSNumber.of_Z 1); Zod.max (JSNumber.of_Z 100)])
                 (c_quality c) = Valid q).
  { destruct Hq as [-> | (n & -> & Hnan & Hint & Hmin & Hmax)]; [eexists; reflexivity|].
    unfold Zod.default, Zod.coerce_number. cbn [ToNumber]. rewrite Hnan.
    cbn -[JSNumber.lt JSNumber.gt]. rewrite Hint.
    unfold JSNumber.ge in Hmin. apply le_not_gt in Hmin. unfold JSNumber.gt in Hmin.
    rewrite Hmin, (le_not_gt _ _ Hmax). cbn. eauto. }
  assert (Eo : exists o, Zod.default false (Zod.boolean_ "original") (c_original c)
                         = Valid o).
  { destruct Ho as [-> | ->]; eexists; reflexivity. }
  destruct Ew as [w ->], Eh as [h ->], Ef as [f ->], Eq as [q ->], Eo as [o ->].
  eauto.
Qed.

(** The single file's parser never throws. *)
Lemma SingleFile_parse_total {platform : Platform} (env : Env) (optionsStr : string) :
  exists o, SingleFile.parseImageProxyOptions optionsStr env = Ok o.
Proof.
  unfold SingleFile.parseImageProxyOptions, SingleFile.createOptionsStringSchema.
  destruct (schema_accepts_checked env _ (checked_transform env optionsStr)) as [o ->].
  exists o. reflexivity.
Qed.

Lemma startsWith_other_key (t : string) (a b : ascii) (p q : string) :
  a <> b ->
  JSString.startsWith t (String a p) = true ->
  JSString.startsWith t (String b q) = false.
Proof.
  intros Hab. destruct t as [|c t]; cbn; [discriminate|].
  intros H. apply andb_true_iff in H as [H _]. apply Ascii.eqb_eq in H. subst c.
  apply andb_false_iff. left. now apply Ascii.eqb_neq.
Qed.

Lemma out_of_range_guard (limit n : number) :
  out_of_range limit n ->
  negb (JSNumber.isNaN n) && JSNumber.gt n (JSNumber.of_Z 0)
  && JSNumber.le n limit = false.
Proof.
  intros [-> | [H | ->]].
  - reflexivity.
  - rewrite H. apply andb_false_iff. left. apply andb_false_r.
  - apply andb_false_r.
Qed.

(** A rejected token leaves the single file's candidate as it was. *)
Lemma SingleFile_rejected_noop (mw mh : number) (c : Candidate) (part : string) :
  rejected_token mw mh part -> SingleFile.apply_part mw mh c part = c.
Proof.
  unfold rejected_token, SingleFile.apply_part.
  set (t := JSString.trim part).
  intros [[Hk Hv] | [[Hk Hv] | [[Hk Hv] | [[Hk Hv] | [Hk Hv]]]]].
  - rewrite Hk. now rewrite out_of_range_guard.
  - rewrite (startsWith_other_key t "h" "w" "_" "_") by (discriminate || exact Hk).
    rewrite Hk. now rewrite out_of_range_guard.
  - rewrite (startsWith_other_key t "s" "w" "_" "_") by (discriminate || exact Hk).
    rewrite (startsWith_other_key t "s" "h" "_" "_") by (discriminate || exact Hk).
    rewrite Hk. destruct Hv as [-> | (g1 & g2 & -> & Hv)]; [reflexivity|].
    destruct Hv as [Hv | Hv]; apply out_of_range_guard in Hv.
    + apply andb_false_iff in Hv as [Hv | Hv];
        [apply andb_false_iff in Hv as [Hv | Hv]|]; rewrite Hv;
        rewrite ?andb_false_r; reflexivity.
    + apply andb_false_iff in Hv as [Hv | Hv];
        [apply andb_false_iff in Hv as [Hv | Hv]|]; rewrite Hv;
        rewrite ?andb_false_r; reflexivity.
  - rewrite (startsWith_other_key t "f" "w" "_" "_") by (discriminate || exact Hk).
    rewrite (startsWith_other_key t "f" "h" "_" "_") by (discriminate || exact Hk).
    rewrite (startsWith_other_key t "f" "s" "_" "_") by (discriminate || exact Hk).
    rewrite Hk. now rewrite Hv.
  - rewrite (startsWith_other_key t "q" "w" "_" "_") by (discriminate || exact Hk).
    rewrite (startsWith_other_key t "q" "h" "_" "_") by (discriminate || exact Hk).
    rewrite (startsWith_other_key t "q" "s" "_" "_") by (discriminate || exact Hk).
    rewrite (startsWith_other_key t "q" "f" "_" "_") by (discriminate || exact Hk).
    rewrite Hk. destruct Hv as [-> | [-> | ->]]; rewrite ?andb_false_r; reflexivity.
Qed.

Lemma foldl_app_cons {A B} (f : A -> B -> A) (a : A) (l1 : list B) (x : B)
    (l2 : list B) :
  foldl f a (l1 ++ x :: l2) = foldl f (f (foldl f a l1) x) l2.
Proof. rewrite foldl_app. reflexivity. Qed.

Lemma SingleFile_rejected_dropped (env : Env) (optionsStr : string)
    (before : list string) (part : string) (after : list string) :
  String.eqb optionsStr "_" = false ->
  JSString.split optionsStr "," = before ++ part :: after ->
  rejected_token (JSConv.parseInt (MAX_WIDTH env))
    (JSConv.parseInt (MAX_HEIGHT env)) part ->
  SingleFile.transform env optionsStr
  = foldl (SingleFile.apply_part (JSConv.parseInt (MAX_WIDTH env))
             (JSConv.parseInt (MAX_HEIGHT env)))
      empty_candidate (before ++ after).
Proof.
  intros Hne Hsplit Hrej. unfold SingleFile.transform. rewrite Hne, Hsplit.
  rewrite foldl_app_cons, foldl_app. now rewrite SingleFile_rejected_noop.
Qed.

(** ** The options parser: modules *)

Lemma Worker_apply_part_token (c : Candidate) (part : string) :
  Worker.apply_part c part
  = match Worker_token part with
    | Some (o, v) => Worker.assign o v c
    | None => c
    end.
Proof.
  unfold Worker.apply_part, Worker_token.
  destruct (JSString.split _ _) as [|key rest]; [reflexivity|].
  destruct (Worker.keyToOption key); reflexivity.
Qed.

Lemma field_assign_same (o : Worker.OptionKey) (v : value) (c : Candidate) :
  candidate_field o (Worker.assign o v c) = v.
Proof. destruct o; reflexivity. Qed.

Lemma field_assign_other (o o' : Worker.OptionKey) (v : value) (c : Candidate) :
  o <> o' -> candidate_field o (Worker.assign o' v c) = candidate_field o c.
Proof. destruct o, o'; congruence || reflexivity. Qed.

Lemma Worker_field_untouched (o : Worker.OptionKey) (parts : list string)
    (c : Candidate) :
  no_token_for o parts ->
  candidate_field o (foldl Worker.apply_part c parts) = candidate_field o c.
Proof.
  revert c. induction parts as [|p parts IH]; intros c Hno; [reflexivity|].
  cbn [foldl]. rewrite IH.
  - rewrite Worker_apply_part_token.
    destruct (Worker_token p) as [[o' v]|] eqn:Ht; [|reflexivity].
    apply field_assign_other. intros ->. apply (Hno p v); [now left|exact Ht].
  - intros q v Hin. apply Hno. now right.
Qed.

(** The last token of a key decides the field of that key. *)
Lemma Worker_last_token_wins (o : Worker.OptionKey) (v : value)
    (before : list string) (part : string) (after : list string) (c : Candidate) :
  Worker_token part = Some (o, v) ->
  no_token_for o after ->
  candidate_field o (foldl Worker.apply_part c (before ++ part :: after)) = v.
Proof.
  intros Ht Hno. rewrite foldl_app_cons, Worker_field_untouched by exact Hno.
  rewrite Worker_apply_part_token, Ht. apply field_assign_same.
Qed.

Lemma schema_rejects_field (env : Env) (o : Worker.OptionKey) (c : Candidate) :
  schema_accepts env o (candidate_field o c) = false ->
  exists issues, createImageProxyOptionsSchema env c = Invalid issues.
Proof.
  unfold schema_accepts, createImageProxyOptionsSchema, is_valid.
  destruct o; cbn [candidate_field]; intros H;
    repeat match goal with
           | |- context [match ?p with Valid _ => _ | Invalid _ => _ end] =>
               destruct p eqn:?
           end; try discriminate; eauto.
Qed.

(** In the modular parser a value that the schema refuses, given by the
    last token of its key, makes the parse throw with status 400. *)
Lemma Worker_invalid_value_throws {platform : Platform} (env : Env)
    (optionsStr : string) (o : Worker.OptionKey) (v : value)
    (before : list string) (part : string) (after : list string) :
  String.eqb optionsStr "_" = false ->
  JSString.split optionsStr "," = before ++ part :: after ->
  Worker_token part = Some (o, v) ->
  no_token_for o after ->
  schema_accepts env o v = false ->
  exists message,
    Worker.parseImageProxyOptions optionsStr env = Throw (HttpError message 400).
Proof.
  intros Hne Hsplit Ht Hno Hbad.
  unfold Worker.parseImageProxyOptions, Worker.createOptionsStringSchema,
    Worker.transform.
  rewrite Hne, Hsplit.
  destruct (schema_rejects_field env o
              (foldl Worker.apply_part empty_candidate (before ++ part :: after)))
    as [issues ->].
  - now rewrite (Worker_last_token_wins o v before part after _ Ht Hno).
  - cbn [parse_or_throw]. eauto.
Qed.

(** C3 holds in the single file and fails in the modular parser.  The
    single file never fails a parse, and a token whose value fails the
    validation of its key is without effect there.  In the modular parser
    the value given by the last token of a key reaches the schema, and a
    value the schema refuses makes the parse throw with status 400. *)
Theorem invalid_token_policy {platform : Platform} (env : Env) :
  (forall optionsStr : string,
      exists o, SingleFile.parseImageProxyOptions optionsStr env = Ok o)
  /\ (forall (optionsStr : string) (before : list string) (part : string)
             (after : list string),
         String.eqb optionsStr "_" = false ->
         JSString.split optionsStr "," = before ++ part :: after ->
         rejected_token (JSConv.parseInt (MAX_WIDTH env))
           (JSConv.parseInt (MAX_HEIGHT env)) part ->
         SingleFile.transform env optionsStr
         = foldl (SingleFile.apply_part (JSConv.parseInt (MAX_WIDTH env))
                    (JSConv.parseInt (MAX_HEIGHT env)))
             empty_candidate (before ++ after))
  /\ (forall (optionsStr : string) (o : Worker.OptionKey) (v : value)
             (before : list string) (part : string) (after : list string),
         String.eqb optionsStr "_" = false ->
         JSString.split optionsStr "," = before ++ part :: after ->
         Worker_token part = Some (o, v) ->
         no_token_for o after ->
         schema_accepts env o v = false ->
         exists message,
           Worker.parseImageProxyOptions optionsStr env
           = Throw (HttpError message 400)).
Proof.
  split; [|split].
  - intros optionsStr. apply SingleFile_parse_total.
  - intros optionsStr before part after Hne Hsplit Hrej.
    now apply (SingleFile_rejected_dropped env optionsStr before part after).
  - intros. now apply (Worker_invalid_value_throws env optionsStr o v before part after).
Qed.

Lemma invalid_token_policy_witness :
  (exists o, SingleFile.parseImageProxyOptions (platform := Demo.platform)
               "w_99999" Demo.env = Ok o)
  /\ SingleFile.transform Demo.env "w_400,w_99999"
     = SingleFile.transform Demo.env "w_400"
  /\ exists message,
       Worker.parseImageProxyOptions (platform := Demo.platform)
         "w_99999" Demo.env = Throw (HttpError message 400).
Proof.
  destruct (invalid_token_policy (platform := Demo.platform) Demo.env)
    as (Htotal & Hdrop & Hthrow).
  split; [|split].
  - apply Htotal.
  - apply (Hdrop "w_400,w_99999" ["w_400"] "w_99999" []); try reflexivity.
    left. split; [reflexivity|]. right. right. reflexivity.
  - apply (Hthrow "w_99999" Worker.opt_width (str "99999") [] "w_99999" []);
      try reflexivity.
    intros p v [].
Defined.

(** With [MAX_WIDTH = 4000] the modular parser answers [w_99999] with a
    400 error; the single file drops the width. *)
Example parse_w_99999 :
  Worker.parseImageProxyOptions (platform := Demo.platform) "w_99999" Demo.env
  = Throw (HttpError "Invalid options: width: too_big" 400)
  /\ SingleFile.parseImageProxyOptions (platform := Demo.platform) "w_99999"
       Demo.env
     = Ok {| width := None; height := None; format := auto;
             quality := JSNumber.of_Z 85; original := false |}.
Proof. split; reflexivity. Qed.

(** ** The size token *)

Lemma span_digits_all (ws r : string) :
  all_digits ws = true ->
  (forall c r', r = String c r' -> JSString.is_digit c = false) ->
  JSString.span_digits (ws +:+ r) = (ws, r).
Proof.
  intros Hws Hr. induction ws as [|c ws IH].
  - change ("" +:+ r) with r. destruct r as [|c r']; [reflexivity|].
    cbn [JSString.span_digits]. now rewrite (Hr c r').
  - cbn [all_digits] in Hws. apply andb_true_iff in Hws as [Hc Hws].
    rewrite append_cons. cbn [JSString.span_digits]. rewrite Hc, IH by exact Hws.
    reflexivity.
Qed.

Lemma span_digits_whole (ws : string) :
  all_digits ws = true -> JSString.span_digits ws = (ws, "").
Proof.
  intros Hws. induction ws as [|c ws IH]; [reflexivity|].
  cbn [all_digits] in Hws. apply andb_true_iff in Hws as [Hc Hws].
  cbn [JSString.span_digits]. rewrite Hc, IH by exact Hws. reflexivity.
Qed.

Lemma digit_first (c : ascii) (r : string) :
  JSString.is_digit c = true ->
  JSConv.strip_sign (JSString.trimStart (String c r)) = (false, String c r).
Proof.
  destruct c as [[] [] [] [] [] [] [] []]; try discriminate; reflexivity.
Qed.

Lemma parseInt_digits (ws : string) :
  all_digits ws = true -> ws <> "" ->
  JSConv.parseInt ws = JSNumber.nearest (inject_Z (JSString.digits_value 0 ws)).
Proof.
  intros Hws Hne. destruct ws as [|c r]; [congruence|].
  unfold JSConv.parseInt.
  assert (Hc : JSString.is_digit c = true).
  { cbn [all_digits] in Hws. now apply andb_true_iff in Hws as [Hc _]. }
  rewrite (digit_first c r Hc), (span_digits_whole _ Hws). reflexivity.
Qed.

(** In the single file a token [s_WxH] within the limits sets the width
    and the height of the candidate in one step. *)
Lemma SingleFile_size_token (mw mh : number) (c : Candidate) (part ws hs : string) :
  JSString.trim part = "s_" +:+ ws +:+ "x" +:+ hs ->
  all_digits ws = true -> ws <> "" ->
  all_digits hs = true -> hs <> "" ->
  0 < JSString.digits_value 0 ws ->
  0 < JSString.digits_value 0 hs ->
  JSNumber.le (JSNumber.nearest (inject_Z (JSString.digits_value 0 ws))) mw = true ->
  JSNumber.le (JSNumber.nearest (inject_Z (JSString.digits_value 0 hs))) mh = true ->
  SingleFile.apply_part mw mh c part
  = SingleFile.set_height (num (JSNumber.nearest (inject_Z (JSString.digits_value 0 hs))))
      (SingleFile.set_width (num (JSNumber.nearest (inject_Z (JSString.digits_value 0 ws)))) c).
Proof.
  intros Htrim Hws Hwne Hhs Hhne Hwpos Hhpos Hwmax Hhmax.
  unfold SingleFile.apply_part. rewrite Htrim.
  assert (Hs : JSString.startsWith ("s_" +:+ ws +:+ "x" +:+ hs) "s_" = true).
  { apply startsWith_spec. eauto. }
  rewrite (startsWith_other_key _ "s" "w" "_" "_") by (discriminate || exact Hs).
  rewrite (startsWith_other_key _ "s" "h" "_" "_") by (discriminate || exact Hs).
  rewrite Hs.
  change (JSString.substring ("s_" +:+ ws +:+ "x" +:+ hs) 2)
    with (ws +:+ "x" +:+ hs).
  unfold SingleFile.match_size.
  rewrite (span_digits_all ws ("x" +:+ hs) Hws).
  2:{ intros ch r' E. change ("x" +:+ hs) with (String "x" hs) in E.
      injection E as <- _. reflexivity. }
  change ("x" +:+ hs) with (String "x" hs). cbn match.
  rewrite (span_digits_whole hs Hhs).
  destruct ws as [|w0 ws']; [congruence|]. destruct hs as [|h0 hs']; [congruence|].
  cbn [JSString.is_empty orb negb].
  rewrite (parseInt_digits _ Hws) by discriminate.
  rewrite (parseInt_digits _ Hhs) by discriminate.
  rewrite Hwmax, Hhmax.
  assert (Hgt : forall z, 0 < z ->
            JSNumber.gt (JSNumber.nearest (inject_Z z)) (JSNumber.of_Z 0) = true).
  { intros z Hz. unfold JSNumber.gt, JSNumber.lt, JSNumber.nearest, JSNumber.of_Z.
    apply Qltb_true. now apply round_positive_value, Qpos_inject. }
  rewrite !Hgt by assumption. reflexivity.
Qed.

(** The modular tokenizer has no key [s]: a token of that key changes
    nothing. *)
Lemma Worker_size_token_ignored (c : Candidate) (part : string) (rest : list string) :
  JSString.split (JSString.trim part) "_" = "s" :: rest ->
  Worker.apply_part c part = c.
Proof. intros E. unfold Worker.apply_part. rewrite E. reflexivity. Qed.

Lemma Worker_size_token_dropped (optionsStr : string) (before : list string)
    (part : string) (after rest : list string) :
  String.eqb optionsStr "_" = false ->
  JSString.split optionsStr "," = before ++ part :: after ->
  JSString.split (JSString.trim part) "_" = "s" :: rest ->
  Worker.transform optionsStr
  = foldl Worker.apply_part empty_candidate (before ++ after).
Proof.
  intros Hne Hsplit Hkey. unfold Worker.transform. rewrite Hne, Hsplit.
  rewrite foldl_app_cons, foldl_app.
  now rewrite (Worker_size_token_ignored _ part rest).
Qed.

Lemma keeps_dimensions_foldl (mw mh : number) (parts : list string) (c : Candidate) :
  (forall p, In p parts -> keeps_dimensions mw mh p) ->
  c_width (foldl (SingleFile.apply_part mw mh) c parts) = c_width c
  /\ c_height (foldl (SingleFile.apply_part mw mh) c parts) = c_height c.
Proof.
  revert c. induction parts as [|p parts IH]; intros c Hkeep; [split; reflexivity|].
  cbn [foldl].
  destruct (IH (SingleFile.apply_part mw mh c p)) as [Hw Hh].
  { intros q Hq. apply Hkeep. now right. }
  destruct (Hkeep p (or_introl eq_refl) c) as [Hw' Hh'].
  split; congruence.
Qed.

Lemma coerce_number_num (path : string) (checks : list Zod.Check) (n m : number) :
  Zod.coerce_number path checks (num n) = Valid m -> m = n.
Proof.
  unfold Zod.coerce_number. cbn [ToNumber].
  destruct (JSNumber.isNaN n); [discriminate|].
  destruct (flat_map _ checks); [|discriminate].
  now intros [= <-].
Qed.

(** A number the schema finds in the candidate is the number of the
    options. *)
Lemma schema_dimensions (env : Env) (c : Candidate) (o : ImageProxyOptions) :
  createImageProxyOptionsSchema env c = Valid o ->
  (forall n, c_width c = num n -> width o = Some n)
  /\ (forall n, c_height c = num n -> height o = Some n).
Proof.
  unfold createImageProxyOptionsSchema.
  destruct (Zod.optional _ (c_width c)) as [w|] eqn:Ew; [|discriminate].
  destruct (Zod.optional _ (c_height c)) as [h|] eqn:Eh; [|discriminate].
  destruct (Zod.default auto _ _) as [f|]; [|discriminate].
  destruct (Zod.default (JSNumber.of_Z 85) _ _) as [q|]; [|discriminate].
  destruct (Zod.default false _ _) as [b|]; [|discriminate].
  intros [= <-]. cbn [width height]. split; intros n Hn.
  - rewrite Hn in Ew. unfold Zod.optional in Ew.
    destruct (Zod.coerce_number _ _ (num n)) as [m|] eqn:Em; [|discriminate].
    apply coerce_number_num in Em. congruence.
  - rewrite Hn in Eh. unfold Zod.optional in Eh.
    destruct (Zod.coerce_number _ _ (num n)) as [m|] eqn:Em; [|discriminate].
    apply coerce_number_num in Em. congruence.
Qed.

(** In the single file a token [s_WxH] within the limits decides width
    and height of the parsed options unless a later part changes them. *)
Lemma SingleFile_size_token_parsed {platform : Platform} (env : Env)
    (optionsStr : string) (before : list string) (part : string)
    (after : list string) (ws hs : string) :
  let mw := JSConv.parseInt (MAX_WIDTH env) in
  let mh := JSConv.parseInt (MAX_HEIGHT env) in
  let W := JSString.digits_value 0 ws in
  let H := JSString.digits_value 0 hs in
  String.eqb optionsStr "_" = false ->
  JSString.split optionsStr "," = before ++ part :: after ->
  JSString.trim part = "s_" +:+ ws +:+ "x" +:+ hs ->
  all_digits ws = true -> ws <> "" ->
  all_digits hs = true -> hs <> "" ->
  0 < W -> 0 < H ->
  JSNumber.le (JSNumber.nearest (inject_Z W)) mw = true ->
  JSNumber.le (JSNumber.nearest (inject_Z H)) mh = true ->
  (forall p, In p after -> keeps_dimensions mw mh p) ->
  exists o,
    SingleFile.parseImageProxyOptions optionsStr env = Ok o
    /\ width o = Some (JSNumber.nearest (inject_Z W))
    /\ height o = Some (JSNumber.nearest (inject_Z H)).
Proof.
  intros mw mh W H Hne Hsplit Htrim Hws Hwne Hhs Hhne HW HH HWmax HHmax Hkeep.
  unfold SingleFile.parseImageProxyOptions, SingleFile.createOptionsStringSchema.
  destruct (schema_accepts_checked env _ (checked_transform env optionsStr))
    as [o Ho].
  rewrite Ho. exists o. split; [reflexivity|].
  assert (Hc : c_width (SingleFile.transform env optionsStr) = num (JSNumber.nearest (inject_Z W))
               /\ c_height (SingleFile.transform env optionsStr)
                  = num (JSNumber.nearest (inject_Z H))).
  { unfold SingleFile.transform. rewrite Hne, Hsplit, foldl_app_cons.
    fold mw mh.
    destruct (keeps_dimensions_foldl mw mh after
                (SingleFile.apply_part mw mh
                   (foldl (SingleFile.apply_part mw mh) empty_candidate before)
                   part) Hkeep) as [-> ->].
    rewrite (SingleFile_size_token mw mh _ part ws hs) by assumption.
    split; reflexivity. }
  destruct Hc as [Hcw Hch].
  destruct (schema_dimensions env _ o Ho) as [Hw Hh]. split; eauto.
Qed.

(** C6 holds in the single file, up to later tokens, and fails in the
    modular parser.  The modular tokenizer has no key [s], so a token
    [s_WxH] is without effect there; in the single file such a token
    within the limits sets width = W and height = H of the parsed options
    unless a later part changes them. *)
Theorem size_token_policy {platform : Platform} (env : Env) :
  (forall (optionsStr : string) (before : list string) (part : string)
          (after rest : list string),
      String.eqb optionsStr "_" = false ->
      JSString.split optionsStr "," = before ++ part :: after ->
      JSString.split (JSString.trim part) "_" = "s" :: rest ->
      Worker.transform optionsStr
      = foldl Worker.apply_part empty_candidate (before ++ after))
  /\ (forall (optionsStr : string) (before : list string) (part : string)
             (after : list string) (ws hs : string),
         String.eqb optionsStr "_" = false ->
         JSString.split optionsStr "," = before ++ part :: after ->
         JSString.trim part = "s_" +:+ ws +:+ "x" +:+ hs ->
         all_digits ws = true -> ws <> "" ->
         all_digits hs = true -> hs <> "" ->
         0 < JSString.digits_value 0 ws ->
         0 < JSString.digits_value 0 hs ->
         JSNumber.le (JSNumber.nearest (inject_Z (JSString.digits_value 0 ws)))
           (JSConv.parseInt (MAX_WIDTH env)) = true ->
         JSNumber.le (JSNumber.nearest (inject_Z (JSString.digits_value 0 hs)))
           (JSConv.parseInt (MAX_HEIGHT env)) = true ->
         (forall p, In p after ->
                    keeps_dimensions (JSConv.parseInt (MAX_WIDTH env))
                      (JSConv.parseInt (MAX_HEIGHT env)) p) ->
         exists o,
           SingleFile.parseImageProxyOptions optionsStr env = Ok o
           /\ width o = Some (JSNumber.nearest (inject_Z (JSString.digits_value 0 ws)))
           /\ height o = Some (JSNumber.nearest (inject_Z (JSString.digits_value 0 hs)))).
Proof.
  split.
  - intros optionsStr before part after rest.
    apply Worker_size_token_dropped.
  - intros optionsStr before part after ws hs.
    apply (SingleFile_size_token_parsed env optionsStr before part after ws hs).
Qed.

Lemma size_token_policy_witness :
  Worker.transform "s_200x200" = empty_candidate
  /\ exists o,
       SingleFile.parseImageProxyOptions (platform := Demo.platform)
         "s_200x200" Demo.env = Ok o
       /\ width o = Some (JSNumber.of_Z 200)
       /\ height o = Some (JSNumber.of_Z 200).
Proof.
  destruct (size_token_policy (platform := Demo.platform) Demo.env)
    as [Hworker Hsingle].
  split.
  - apply (Hworker "s_200x200" [] "s_200x200" [] ["200x200"]); reflexivity.
  - apply (Hsingle "s_200x200" [] "s_200x200" [] "200" "200");
      try reflexivity; try discriminate; try lia.
    intros p [].
Defined.

(** The request the documentation gives as an example: the modular parser
    leaves width and height absent for [s_200x200], the single file sets
    both to 200. *)
Example parse_s_200x200 :
  Worker.parseImageProxyOptions (platform := Demo.platform) "s_200x200" Demo.env
  = Ok {| width := None; height := None; format := auto;
          quality := JSNumber.of_Z 85; original := false |}
  /\ SingleFile.parseImageProxyOptions (platform := Demo.platform) "s_200x200"
       Demo.env
     = Ok {| width := Some (JSNumber.of_Z 200); height := Some (JSNumber.of_Z 200);
             format := auto; quality := JSNumber.of_Z 85; original := false |}.
Proof. split; reflexivity. Qed.

(** ** The request handler and the edge cache *)

Section HandlerFacts.
Context {platform : Platform}.
Variable parse : string -> Env -> Result ImageProxyOptions.
Variable process : Response -> ImageProxyOptions -> M Heap Response.

(** A cached response is returned as it is stored. *)
Lemma fetch_handler_cache_hit (request : Request) (env : Env) (w : World)
    (parsed : URL) (operationsStr sourceUrl : string)
    (options : ImageProxyOptions) (cached : Response) :
  method request = "GET" ->
  new_URL (url request) = Ok parsed ->
  String.eqb (pathname parsed) "/" || String.eqb (pathname parsed) "/health" = false ->
  match_path (pathname parsed) = Some (operationsStr, sourceUrl) ->
  validateDomain sourceUrl (ALLOWED_DOMAINS env) = true ->
  parse operationsStr env = Ok options ->
  cache w !! url request = Some cached ->
  fetch_handler parse process request env w = (cached, w).
Proof.
  intros Hm Hurl Hpath Hmatch Hdom Hparse Hhit.
  unfold fetch_handler, handle_get, bind, lift_result, cache_match.
  rewrite Hm, Hurl, Hpath, Hmatch, Hdom, Hparse. cbn. rewrite Hhit. reflexivity.
Qed.

Hypothesis process_plain :
  forall src opts h r h',
    process src opts h = (Ok r, h') ->
    status r = 200
    /\ forall name, passthrough_name (JSString.toLowerCase name) = false ->
                    Hdr.get (headers r) name = None.

(** When a request that misses the cache leaves an entry behind, the
    entry is the response before the CORS headers were added, and the
    next identical request is answered with that entry. *)
Lemma fetch_miss_then_hit (request : Request) (env : Env) (w w1 : World)
    (r1 stored : Response) :
  cache w !! url request = None ->
  fetch_handler parse process request env w = (r1, w1) ->
  cache w1 !! url request = Some stored ->
  r1 = addCorsHeaders stored
  /\ status stored = 200
  /\ (forall name, passthrough_name (JSString.toLowerCase name) = false ->
                   Hdr.get (headers stored) name = None)
  /\ fetch_handler parse process request env w1 = (stored, w1).
Proof.
  intros Hmiss.
  unfold fetch_handler, handle_get, bind, lift_result, cache_match, cache_put,
    lift_heap, throw, ret.
  destruct (String.eqb (method request) "OPTIONS");
    [intros [= <- <-]; congruence|].
  destruct (String.eqb (method request) "GET"); cbn [negb];
    [|intros [= <- <-]; congruence].
  destruct (new_URL (url request)) as [parsed|e];
    [|intros [= <- <-]; congruence].
  destruct (String.eqb (pathname parsed) "/" || String.eqb (pathname parsed) "/health");
    [intros [= <- <-]; congruence|].
  destruct (match_path (pathname parsed)) as [[operationsStr sourceUrl]|];
    [|intros [= <- <-]; congruence].
  destruct (validateDomain sourceUrl (ALLOWED_DOMAINS env)); cbn [negb];
    [|intros [= <- <-]; congruence].
  destruct (parse operationsStr env) as [options|e];
    [|intros [= <- <-]; congruence].
  rewrite Hmiss.
  destruct (fetchSourceImage sourceUrl request) as [sourceResponse|e];
    [|intros [= <- <-]; congruence].
  destruct (process sourceResponse options (heap w)) as [[response|e] h'] eqn:Hproc;
    [|intros [= <- <-]; cbn [cache]; congruence].
  destruct (process_plain _ _ _ _ _ Hproc) as [Hst Hplain].
  destruct (ok response);
    [|intros [= <- <-]; cbn [cache]; congruence].
  intros [= <- <-]. cbn [cache]. rewrite lookup_insert_eq. intros [= <-].
  repeat split; assumption.
Qed.

End HandlerFacts.

Lemma plain_headers (ct cc et lm name : string) :
  passthrough_name (JSString.toLowerCase name) = false ->
  Hdr.get
    (Hdr.of_list
       [("Content-Type", ct); ("Cache-Control", cc); ("ETag", et);
        ("Last-Modified", lm)]) name
  = None.
Proof.
  unfold passthrough_name. intros H.
  apply orb_false_iff in H as [H H4]. apply orb_false_iff in H as [H H3].
  apply orb_false_iff in H as [H1 H2].
  cbn [Hdr.of_list foldl fst snd]. rewrite !get_set.
  change (JSString.toLowerCase "Last-Modified") with "last-modified".
  change (JSString.toLowerCase "ETag") with "etag".
  change (JSString.toLowerCase "Cache-Control") with "cache-control".
  change (JSString.toLowerCase "Content-Type") with "content-type".
  rewrite !(String.eqb_sym _ (JSString.toLowerCase name)).
  rewrite H1, H2, H3, H4. apply lookup_empty.
Qed.

Section Plain.
Context {platform : Platform}.

(** A response of [processImage] has status 200 and no header besides
    Content-Type, Cache-Control, ETag and Last-Modified. *)
Lemma Worker_processImage_plain (src : Response) (opts : ImageProxyOptions)
    (h : Heap) (r : Response) (h' : Heap) :
  Worker.processImage src opts h = (Ok r, h') ->
  status r = 200
  /\ forall name, passthrough_name (JSString.toLowerCase name) = false ->
                  Hdr.get (headers r) name = None.
Proof.
  unfold Worker.processImage. destruct (original opts).
  - intros [= <- <-]. split; [reflexivity|]. intros name. apply plain_headers.
  - unfold try_catch, bind, throw, ret.
    destruct (Photon.new_from_byteslice _ h) as [[p|e] h1]; [|discriminate].
    destruct (Worker.applyTransformations p opts h1) as [[p'|e] h2]; [|discriminate].
    destruct (getImageBuffer p' _ _ h2) as [[bytes|e] h3]; [|discriminate].
    destruct (Photon.free p' h3) as [[u|e] h4]; [|discriminate].
    intros [= <- <-]. split; [reflexivity|]. intros name. apply plain_headers.
Qed.

Lemma SingleFile_processImage_plain (src : Response) (opts : ImageProxyOptions)
    (h : Heap) (r : Response) (h' : Heap) :
  SingleFile.processImage src opts h = (Ok r, h') ->
  status r = 200
  /\ forall name, passthrough_name (JSString.toLowerCase name) = false ->
                  Hdr.get (headers r) name = None.
Proof.
  unfold SingleFile.processImage, try_catch at 1. destruct (original opts).
  - intros [= <- <-]. split; [reflexivity|]. intros name. apply plain_headers.
  - unfold try_catch, bind, throw, ret.
    destruct (Photon.new_from_byteslice _ h) as [[p|e] h1]; [|discriminate].
    destruct (SingleFile.applyTransformations p opts h1) as [[p'|e] h2].
    + destruct (getImageBuffer p' _ _ h2) as [[bytes|e] h3].
      * destruct (Photon.free p' h3) as [[u|e] h4].
        -- intros [= <- <-]. split; [reflexivity|]. intros name. apply plain_headers.
        -- destruct (Photon.free p h4) as [[u|e'] h5]; discriminate.
      * destruct (Photon.free p h3) as [[u|e'] h5]; discriminate.
    + destruct (Photon.free p h2) as [[u|e'] h5]; discriminate.
Qed.

(** C1 fails in both copies.  When a request that misses the cache gets a
    response that is then stored, the next identical request is answered
    from the cache with status 200 and without any of the four headers
    [addCorsHeaders] sets: the cache holds the response as it was before
    they were added, and the hit path returns it untouched. *)
Theorem cache_hit_lacks_cors (request : Request) (env : Env) :
  (forall (w w1 : World) (r1 stored : Response),
      cache w !! url request = None ->
      Worker.fetch request env w = (r1, w1) ->
      cache w1 !! url request = Some stored ->
      r1 = addCorsHeaders stored
      /\ Worker.fetch request env w1 = (stored, w1)
      /\ status stored = 200
      /\ Hdr.get (headers stored) "Access-Control-Allow-Origin" = None
      /\ Hdr.get (headers stored) "Access-Control-Allow-Methods" = None
      /\ Hdr.get (headers stored) "Access-Control-Allow-Headers" = None
      /\ Hdr.get (headers stored) "X-Content-Type-Options" = None)
  /\ (forall (w w1 : World) (r1 stored : Response),
         cache w !! url request = None ->
         SingleFile.fetch request env w = (r1, w1) ->
         cache w1 !! url request = Some stored ->
         r1 = addCorsHeaders stored
         /\ SingleFile.fetch request env w1 = (stored, w1)
         /\ status stored = 200
         /\ Hdr.get (headers stored) "Access-Control-Allow-Origin" = None
         /\ Hdr.get (headers stored) "Access-Control-Allow-Methods" = None
         /\ Hdr.get (headers stored) "Access-Control-Allow-Headers" = None
         /\ Hdr.get (headers stored) "X-Content-Type-Options" = None).
Proof.
  split; intros w w1 r1 stored Hmiss Hrun Hstored.
  - destruct (fetch_miss_then_hit _ _ Worker_processImage_plain
                request env w w1 r1 stored Hmiss Hrun Hstored)
      as (Hr1 & Hst & Hplain & Hhit).
    repeat split; try assumption; apply Hplain; reflexivity.
  - destruct (fetch_miss_then_hit _ _ SingleFile_processImage_plain
                request env w w1 r1 stored Hmiss Hrun Hstored)
      as (Hr1 & Hst & Hplain & Hhit).
    repeat split; try assumption; apply Hplain; reflexivity.
Qed.

End Plain.

Lemma cache_hit_lacks_cors_witness :
  let request :=
    Demo.get "https://proxy.example/w_400,f_webp/https://picsum.photos/800/600" in
  let first := Worker.fetch (platform := Demo.platform) request Demo.env
                 Demo.empty_world in
  let second := Worker.fetch (platform := Demo.platform) request Demo.env first.2 in
  Hdr.get (headers first.1) "Access-Control-Allow-Origin" = Some "*"
  /\ status second.1 = 200
  /\ body second.1 = Some "webp:raw"
  /\ Hdr.get (headers second.1) "Access-Control-Allow-Origin" = None
  /\ Hdr.get (headers second.1) "X-Content-Type-Options" = None.
Proof.
  intros request first second.
  destruct (cache_hit_lacks_cors (platform := Demo.platform) request Demo.env)
    as [HW _].
  destruct (HW Demo.empty_world first.2 first.1 second.1)
    as (_ & Hhit & Hst & Ho & _ & _ & Hn).
  - reflexivity.
  - reflexivity.
  - reflexivity.
  - repeat split; try assumption; reflexivity.
Defined.

Lemma processImage_leaks_witness :
  let options :=
    {| width := Some (JSNumber.of_Z 400); height := None; format := webp;
       quality := JSNumber.of_Z 85; original := false |} in
  let source := {| bm_width := 800; bm_height := 600; bm_pixels := "raw" |} in
  let resized := {| bm_width := 400; bm_height := 300; bm_pixels := "raw" |} in
  match Worker.processImage (platform := Demo.platform_no_webp) Demo.picsum
          options empty_heap with
  | (Ok _, h') => live h' !! 0%nat = Some source /\ live h' !! 1%nat = None
  | (Throw _, h') => live h' !! 0%nat = Some source /\ live h' !! 1%nat = Some resized
  end
  /\ match SingleFile.processImage (platform := Demo.platform_no_webp) Demo.picsum
             options empty_heap with
     | (Ok _, h') => live h' !! 0%nat = Some source /\ live h' !! 1%nat = None
     | (Throw _, h') => live h' !! 0%nat = None /\ live h' !! 1%nat = Some resized
     end.
Proof.
  intros options source resized.
  destruct (processImage_leaks (platform := Demo.platform_no_webp) Demo.picsum
              options empty_heap source) as [Hworker Hsingle];
    try reflexivity.
  split; [apply Hworker|apply Hsingle]; reflexivity.
Defined.

(** ** The examples of the specification, run on the example platform *)

Example worker_leaves_source_image_live :
  let options :=
    {| width := Some (JSNumber.of_Z 400); height := None; format := webp;
       quality := JSNumber.of_Z 85; original := false |} in
  let '(r, h) := Worker.processImage (platform := Demo.platform) Demo.picsum
                   options empty_heap in
  (exists response, r = Ok response)
  /\ live h = {[ 0%nat := {| bm_width := 800; bm_height := 600; bm_pixels := "raw" |} ]}
  /\ calls h = [call_decode; call_get_width 0; call_get_height 0; call_resize 0;
                call_encode 1; call_free 1].
Proof. vm_compute. repeat split. eexists. reflexivity. Qed.

Example single_file_leaves_source_image_live :
  let options :=
    {| width := Some (JSNumber.of_Z 400); height := None; format := webp;
       quality := JSNumber.of_Z 85; original := false |} in
  let '(r, h) := SingleFile.processImage (platform := Demo.platform) Demo.picsum
                   options empty_heap in
  (exists response, r = Ok response)
  /\ live h = {[ 0%nat := {| bm_width := 800; bm_height := 600; bm_pixels := "raw" |} ]}
  /\ calls h = [call_decode; call_get_width 0; call_get_height 0; call_resize 0;
                call_encode 1; call_free 1].
Proof. vm_compute. repeat split. eexists. reflexivity. Qed.

Example single_file_leaves_resized_image_live :
  let options :=
    {| width := Some (JSNumber.of_Z 400); height := None; format := webp;
       quality := JSNumber.of_Z 85; original := false |} in
  let '(r, h) := SingleFile.processImage (platform := Demo.platform_no_webp)
                   Demo.picsum options empty_heap in
  r = Throw (HttpError "Failed to process image" 500)
  /\ live h = {[ 1%nat := {| bm_width := 400; bm_height := 300; bm_pixels := "raw" |} ]}
  /\ calls h = [call_decode; call_get_width 0; call_get_height 0; call_resize 0;
                call_encode 1; call_free 0].
Proof. vm_compute. repeat split. Qed.

Example no_resize_releases_the_image :
  let options :=
    {| width := None; height := None; format := png;
       quality := JSNumber.of_Z 85; original := false |} in
  let '(r, h) := SingleFile.processImage (platform := Demo.platform) Demo.picsum
                   options empty_heap in
  (exists response, r = Ok response) /\ live h = ∅.
Proof. vm_compute. split; [eexists|]; reflexivity. Qed.

Example validateDomain_examples :
  validateDomain (platform := Demo.platform) "https://sub.example.com/x"
    ["*.example.com"] = true
  /\ validateDomain (platform := Demo.platform) "https://example.com/x"
       ["*.example.com"] = true
  /\ validateDomain (platform := Demo.platform) "https://evil.com/x"
       ["*.example.com"] = false
  /\ validateDomain (platform := Demo.platform) "https://evil.com/x" [] = true
  /\ validateDomain (platform := Demo.platform) "not a url" [] = false.
Proof. repeat split. Qed.

Example determineOutputFormat_examples :
  determineOutputFormat auto (Some "text/html,image/webp,*/*") = out_webp
  /\ determineOutputFormat auto (Some "text/html") = out_jpeg
  /\ determineOutputFormat png (Some "image/webp") = out_png.
Proof. repeat split. Qed.

Example parse_examples :
  Worker.parseImageProxyOptions (platform := Demo.platform) "w_400,f_webp" Demo.env
  = Ok {| width := Some (JSNumber.of_Z 400); height := None; format := webp;
          quality := JSNumber.of_Z 85; original := false |}
  /\ SingleFile.parseImageProxyOptions (platform := Demo.platform) "w_400,f_webp"
       Demo.env
     = Ok {| width := Some (JSNumber.of_Z 400); height := None; format := webp;
             quality := JSNumber.of_Z 85; original := false |}
  /\ SingleFile.parseImageProxyOptions (platform := Demo.platform) "w_99999"
       Demo.env
     = Ok {| width := None; height := None; format := auto;
             quality := JSNumber.of_Z 85; original := false |}
  /\ SingleFile.parseImageProxyOptions (platform := Demo.platform) "s_200x200,w_50"
       Demo.env
     = Ok {| width := Some (JSNumber.of_Z 50); height := Some (JSNumber.of_Z 200);
             format := auto; quality := JSNumber.of_Z 85; original := false |}.
Proof. repeat split. Qed.

Example end_to_end_examples :
  let run u := (Worker.fetch (platform := Demo.platform) (Demo.get u) Demo.env
                  Demo.empty_world).1 in
  let resized := run "https://proxy.example/w_400,f_webp/https://picsum.photos/800/600" in
  let passed := run "https://proxy.example/_/https://picsum.photos/800/600" in
  let refused := run "https://proxy.example/w_400/https://evil.example/a.png" in
  let broken := run "https://proxy.example/w_400/https://picsum.photos/broken.png" in
  status resized = 200
  /\ Hdr.get (headers resized) "Content-Type" = Some "image/webp"
  /\ Hdr.get (headers resized) "Access-Control-Allow-Origin" = Some "*"
  /\ status passed = 200
  /\ body passed = body Demo.picsum
  /\ Hdr.get (headers passed) "Content-Type" = Some "image/jpeg"
  /\ status refused = 403
  /\ status broken = 500
  /\ body broken = Some "Failed to process image".
Proof. vm_compute. repeat split. Qed.
